(** * tsaugur: the Holt-Winters model wrapper ([tsaugur/models/holt_winters.py])

    A shallow embedding of [HoltWinters._tune], [HoltWinters.fit] and
    [HoltWinters.predict].  Python floats are IEEE doubles, modelled by the
    Standard Library's [spec_float]; the [params] dictionary is a
    [gmap string pyval]; statements that may raise run in a small
    state-and-exception monad over the instance and the store of series
    objects.  The statistics library (statsmodels) and the helper modules of
    the package that are not among the sources are parameters of the
    development. *)

From Stdlib Require Import ZArith Floats.SpecFloat.
From stdpp Require Import gmap strings list fin_maps.

(** ** Python floats and their ordering *)

Abbreviation float := spec_float.

(** [np.inf] *)
Definition np_inf : float := S754_infinity false.

(** [np.isnan] *)
Definition isnan (x : float) : bool :=
  match x with S754_nan => true | _ => false end.

(** A position of every non-NaN float in a lexicographically ordered triple:
    class (-inf, negative, zero, positive, +inf), then exponent, then
    mantissa, the last two negated for negative numbers. *)
Definition rank (x : float) : Z * Z * Z :=
  (match x with
  | S754_zero _ => (0, 0, 0)
  | S754_infinity true => (-2, 0, 0)
  | S754_infinity false => (2, 0, 0)
  | S754_nan => (3, 0, 0)
  | S754_finite true m e => (-1, - e, - Z.pos m)
  | S754_finite false m e => (1, e, Z.pos m)
  end)%Z.

Definition lex_compare (a b : Z * Z * Z) : comparison :=
  match a, b with
  | (a1, a2, a3), (b1, b2, b3) =>
      match (a1 ?= b1)%Z with
      | Eq => match (a2 ?= b2)%Z with Eq => (a3 ?= b3)%Z | c => c end
      | c => c
      end
  end.

(** The lexicographic order on ranks, in a form linear arithmetic decides. *)
Definition lex_lt (a b : Z * Z * Z) : Prop :=
  match a, b with
  | (a1, a2, a3), (b1, b2, b3) =>
      (a1 < b1 ∨ (a1 = b1 ∧ (a2 < b2 ∨ (a2 = b2 ∧ a3 < b3))))%Z
  end.

(** ** Results of Python calls *)

Inductive pyexn :=
  | ValueError (msg : string)
  | KeyError (k : string)
  | AttributeError (msg : string)
  | IndexError (msg : string)
  | OtherError (msg : string).

Inductive res (A : Type) :=
  | Ok (a : A)
  | Raise (e : pyexn).
Arguments Ok {A} a.
Arguments Raise {A} e.

(** ** numpy's [argmin] and [nanargmin] on a list of doubles *)

(** The scan of [np.argmin] over doubles: the running minimum [mp] at index
    [mi] is replaced by the element [x] at index [i] when [not (x >= mp)];
    a NaN stops the scan. *)
Fixpoint argmin_loop (mi : nat) (mp : float) (i : nat) (ip : list float) : nat :=
  match ip with
  | [] => mi
  | x :: ip' =>
      if negb (SFleb mp x)
      then if isnan x then i else argmin_loop i x (S i) ip'
      else argmin_loop mi mp (S i) ip'
  end.

Definition argmin (a : list float) : res nat :=
  match a with
  | [] => Raise (ValueError "attempt to get argmin of an empty sequence")
  | mp :: ip => Ok (if isnan mp then 0 else argmin_loop 0 mp 1 ip)
  end.

(** [np.lib.nanfunctions._replace_nan(a, np.inf)]: the array with every NaN
    replaced by [+inf] (the mask is [isnan]). *)
Definition replace_nan (a : list float) : list float :=
  map (fun x => if isnan x then np_inf else x) a.

(** [np.nanargmin(a)]: NaNs are replaced by [+inf]; an array that is all NaN
    (and not empty) raises; otherwise [argmin] of the replaced array. *)
Definition nanargmin (a : list float) : res nat :=
  if bool_decide (a ≠ []) && forallb isnan a
  then Raise (ValueError "All-NaN slice encountered")
  else argmin (replace_nan a).

(** [i] is the first index of a least element of [a]: nothing in [a] is
    below [a[i]] and everything before [i] is strictly above it. *)
Definition first_min (a : list float) (i : nat) : Prop :=
  ∃ xi, a !! i = Some xi
        ∧ (∀ j xj, a !! j = Some xj → ¬ lex_lt (rank xj) (rank xi))
        ∧ (∀ j xj, j < i → a !! j = Some xj → lex_lt (rank xi) (rank xj)).

Definition nan_free (a : list float) : Prop :=
  Forall (λ x, isnan x = false) a.

(** ** Python values, dictionaries and [itertools.product] *)

(** The values the hyperparameter grid holds: strings and booleans. *)
Inductive pyval :=
  | VStr (s : string)
  | VBool (b : bool).

#[global] Instance pyval_eq_dec : EqDecision pyval.
Proof. solve_decision. Defined.

Abbreviation dict := (gmap string pyval).
Abbreviation series := (list float).

(** [d[k]] *)
Definition getitem (d : dict) (k : string) : res pyval :=
  match d !! k with
  | Some v => Ok v
  | None => Raise (KeyError k)
  end.

(** [dict(pairs)]: later pairs overwrite earlier ones. *)
Definition dict_of (pairs : list (string * pyval)) : dict :=
  foldl (λ d kv, <[kv.1 := kv.2]> d) ∅ pairs.

(** [d.update(other)]: the entries of [other] win. *)
Definition update (d other : dict) : dict := other ∪ d.

(** [l[i]] for an index that is not negative. *)
Definition list_index {A} (l : list A) (i : nat) : res A :=
  match l !! i with
  | Some x => Ok x
  | None => Raise (IndexError "list index out of range")
  end.

(** [itertools.product] of the pools: the rightmost pool advances fastest. *)
Fixpoint product {A} (pools : list (list A)) : list (list A) :=
  match pools with
  | [] => [[]]
  | pool :: pools' => x ← pool; (x ::.) <$> product pools'
  end.

(** ** The hyperparameter grid of [_tune] *)

(** [params_grid], a dict literal, as its items in insertion order. *)
Definition params_grid : list (string * list pyval) :=
  [ ("trend", [VStr "add"; VStr "mul"]);
    ("seasonal", [VStr "add"; VStr "mul"]);
    ("damped", [VBool true; VBool false]);
    ("use_boxcox", [VBool true; VBool false; VStr "log"]);
    ("remove_bias", [VBool true; VBool false]) ].

(** [params_keys, params_values]: the keys and the value lists of the items *)
Definition params_keys : list string := params_grid.*1.
Definition params_values : list (list pyval) := params_grid.*2.

(** [dict(zip(params_keys, v))] for every [v] of the product of [params_values] *)
Definition params_permutations : list dict :=
  (λ v, dict_of (zip params_keys v)) <$> product params_values.

(** The keys of the grid, as a set. *)
Definition grid_keys : gset string := list_to_set params_keys.

(** ** The validation split *)

(** The literal [.1]: the double nearest to one tenth. *)
Definition tenth : float := S754_finite false 7205759403792794 (-56).

(** The conversion of [len(y)], an int, to a double for the product. *)
Definition float_of_len (n : Z) : float :=
  binary_normalize 53 1024 n 0 false.

(** [int(x)] of a finite double: truncation towards zero.  (The product of
    a length and [.1] is finite; [int] raises on infinities and NaN.) *)
Definition int_of_float (x : float) : Z :=
  match x with
  | S754_finite s m e =>
      let z := if (0 <=? e)%Z then (Z.pos m * 2 ^ e)%Z else (Z.pos m / 2 ^ (- e))%Z in
      if s then (- z)%Z else z
  | _ => 0%Z
  end.

(** [int(n * .1)] in binary64 arithmetic. *)
Definition double_val_size (n : Z) : Z :=
  int_of_float (SFmul 53 1024 (float_of_len n) tenth).

(** [int(len(y) * .1)] *)
Definition default_val_size (y : series) : nat :=
  Z.to_nat (double_val_size (Z.of_nat (length y))).

(** Rounding to nearest, ties to even, of [m / 2^n]: the quotient, or the
    quotient plus one, by the bits that are shifted out. *)
Definition rne (m : Z) (n : Z) : Z :=
  (let q := m / 2 ^ n in
   let rem := m mod 2 ^ n in
   let half := 2 ^ (n - 1) in
   if (rem <? half) then q
   else if (rem =? half) then (if Z.even q then q else q + 1)
   else q + 1)%Z.

(** Modelled from the spec: [model_utils.train_val_split], whose module is
    not among the sources.  The spec: "Splits the series into a leading
    training portion and trailing validation portion of the requested
    size." *)
Definition train_val_split (y : series) (val_size : nat) : series * series :=
  (take (length y - val_size) y, drop (length y - val_size) y).

(** ** The collaborators *)

(** statsmodels' [ExponentialSmoothing] and the helper modules of the
    package ([data_utils.period_to_int], [metrics.get_metric]) are not part
    of the sources: every call may return or raise. *)
Class Externals := {
  ESModel : Type;
  HWResults : Type;
  (** [ExponentialSmoothing(endog, seasonal_periods=, trend=, seasonal=, damped=)] *)
  ExponentialSmoothing : series → Z → pyval → pyval → pyval → res ESModel;
  (** [model.fit(use_boxcox=, remove_bias=)] *)
  model_fit : ESModel → pyval → pyval → res HWResults;
  (** [model.forecast(steps)] *)
  forecast : HWResults → nat → res series;
  (** Whether the forecasts of a fitted model have the attribute [values]:
      statsmodels returns a pandas Series, which has it, for a model built
      on a pandas Series, and an ndarray, which has not, for a model built
      on an ndarray. *)
  forecast_has_values : HWResults → bool;
  (** [data_utils.period_to_int(period)] *)
  period_to_int : string → res Z;
  (** [get_metric(metric)], returning [metric_fun(y_true, y_pred)] *)
  get_metric : string → res (series → series → res float)
}.

(** The [period] argument: [Int or Str]. *)
Inductive period_arg :=
  | PInt (n : Z)
  | PStr (s : string).

Abbreviation loc := positive.

Section Model.
Context `{Externals}.

(** The attributes of a [HoltWinters] instance; [None] is an attribute
    that holds no value yet.  [self_y] refers to the caller's series. *)
Record HoltWinters := {
  self_period : option Z;
  self_params : dict;
  self_model : option HWResults;
  self_y : option loc;
  self_name : option string;
  self_key : option string
}.

(** The instance and the series objects of the caller. *)
Record world := {
  self : HoltWinters;
  heap : gmap loc series
}.

(** Statements: they read and write the world, and return or raise. *)
Definition M (A : Type) : Type := world → res A * world.

#[global] Instance M_ret : MRet M := λ A a w, (Ok a, w).
#[global] Instance M_bind : MBind M := λ A B f m w,
  match m w with
  | (Ok a, w') => f a w'
  | (Raise e, w') => (Raise e, w')
  end.

(** A call of a collaborator or of a library function. *)
Definition call {A} (r : res A) : M A := λ w, (r, w).

(** [try: body except: handler], with a bare [except] clause. *)
Definition try_except {A} (body handler : M A) : M A := λ w,
  match body w with
  | (Ok a, w') => (Ok a, w')
  | (Raise _, w') => handler w'
  end.

Definition get_self : M HoltWinters := λ w, (Ok (self w), w).
Definition set_self (f : HoltWinters → HoltWinters) : M unit := λ w,
  (Ok (), {| self := f (self w); heap := heap w |}).

(** The values of the series object at [y]. *)
Definition read (y : loc) : M series := λ w,
  (Ok (default [] (heap w !! y)), w).

(** [self.period], [self.model]: reading an attribute without a value. *)
Definition get_period : M Z :=
  s ← get_self;
  match self_period s with
  | Some p => mret p
  | None => call (Raise (AttributeError "period"))
  end.
Definition get_model : M HWResults :=
  s ← get_self;
  match self_model s with
  | Some m => mret m
  | None => call (Raise (AttributeError "forecast"))
  end.

(** [self.params[k]] *)
Definition param (k : string) : M pyval :=
  s ← get_self; call (getitem (self_params s) k).

Definition set_period (p : Z) : M unit :=
  set_self (λ s, {| self_period := Some p; self_params := self_params s;
                    self_model := self_model s; self_y := self_y s;
                    self_name := self_name s; self_key := self_key s |}).
Definition set_params (f : dict → dict) : M unit :=
  set_self (λ s, {| self_period := self_period s; self_params := f (self_params s);
                    self_model := self_model s; self_y := self_y s;
                    self_name := self_name s; self_key := self_key s |}).
Definition set_model (m : HWResults) : M unit :=
  set_self (λ s, {| self_period := self_period s; self_params := self_params s;
                    self_model := Some m; self_y := self_y s;
                    self_name := self_name s; self_key := self_key s |}).
Definition set_y (y : loc) : M unit :=
  set_self (λ s, {| self_period := self_period s; self_params := self_params s;
                    self_model := self_model s; self_y := Some y;
                    self_name := self_name s; self_key := self_key s |}).
Definition set_name (n : string) : M unit :=
  set_self (λ s, {| self_period := self_period s; self_params := self_params s;
                    self_model := self_model s; self_y := self_y s;
                    self_name := Some n; self_key := self_key s |}).
Definition set_key (k : string) : M unit :=
  set_self (λ s, {| self_period := self_period s; self_params := self_params s;
                    self_model := self_model s; self_y := self_y s;
                    self_name := self_name s; self_key := Some k |}).

(** *** [_tune] *)

(** The statements of the [try] block up to the score of one candidate
    (lines 50-54; the [warnings] context manager changes no value). *)
Definition candidate_score (y_train y_val : series)
    (metric_fun : series → series → res float) (permutation : dict) : M float :=
  period ← get_period;
  trend ← call (getitem permutation "trend");
  seasonal ← call (getitem permutation "seasonal");
  damped ← call (getitem permutation "damped");
  model ← call (ExponentialSmoothing y_train period trend seasonal damped);
  use_boxcox ← call (getitem permutation "use_boxcox");
  remove_bias ← call (getitem permutation "remove_bias");
  model ← call (model_fit model use_boxcox remove_bias);
  y_pred ← call (forecast model (length y_val));
  call (metric_fun y_val y_pred).

(** The body of the [for] loop (lines 47-57): the score is appended, or
    [np.inf] when anything in the [try] block raised. *)
Definition tune_step (y_train y_val : series)
    (metric_fun : series → series → res float)
    (scores : list float) (permutation : dict) : M (list float) :=
  try_except
    (score ← candidate_score y_train y_val metric_fun permutation;
     mret (scores ++ [score]))
    (mret (scores ++ [np_inf])).

(** [for permutation in params_permutations: ...] (lines 46-57) *)
Fixpoint tune_loop (y_train y_val : series)
    (metric_fun : series → series → res float)
    (permutations : list dict) (scores : list float) : M (list float) :=
  match permutations with
  | [] => mret scores
  | permutation :: rest =>
      scores' ← tune_step y_train y_val metric_fun scores permutation;
      tune_loop y_train y_val metric_fun rest scores'
  end.

(** [HoltWinters._tune(self, y, period, x, metric, val_size, verbose)];
    [x] and [verbose] are not used. *)
Definition _tune (y : loc) (period : period_arg) (metric : string)
    (val_size : option nat) : M unit :=
  p ← match period with
      | PStr s => call (period_to_int s)
      | PInt n => mret n
      end;
  set_period p;;
  ys ← read y;
  let val_size := match val_size with
                  | None => default_val_size ys
                  | Some v => v
                  end in
  let '(y_train, y_val) := train_val_split ys val_size in
  metric_fun ← call (get_metric metric);
  scores ← tune_loop y_train y_val metric_fun params_permutations [];
  i ← call (nanargmin scores);
  best_params ← call (list_index params_permutations i);
  set_params (λ d, update d best_params);;
  set_params (λ d, <["tuned" := VBool true]> d).

(** [HoltWinters.fit(self, y, period, x, metric, val_size, verbose)] *)
Definition fit (y : loc) (period : period_arg) (metric : string)
    (val_size : option nat) : M unit :=
  set_y y;;
  set_name "Holt-Winters Exponential Smoothing";;
  set_key "holt_winters";;
  _tune y period metric val_size;;
  ys ← read y;
  period ← get_period;
  trend ← param "trend";
  seasonal ← param "seasonal";
  damped ← param "damped";
  model ← call (ExponentialSmoothing ys period trend seasonal damped);
  use_boxcox ← param "use_boxcox";
  remove_bias ← param "remove_bias";
  fitted ← call (model_fit model use_boxcox remove_bias);
  set_model fitted.

(** [HoltWinters.predict(self, horizon, x)]:
    [return self.model.forecast(horizon).values]; [.values] of a pandas
    Series is its numbers, an ndarray has no such attribute. *)
Definition predict (horizon : nat) : M series :=
  model ← get_model;
  forecasts ← call (forecast model horizon);
  if forecast_has_values model then mret forecasts
  else call (Raise (AttributeError "values")).

End Model.


(** ** What the loop records, and what [_tune] leaves behind *)

(** The score the loop appends for the outcome of a [try] block. *)
Definition recorded (r : res float) : float :=
  match r with
  | Ok score => score
  | Raise _ => np_inf
  end.

Section Outcome.
Context `{Externals}.

(** [self.period = ... if type(period) == str else period] *)
Definition resolve_period (period : period_arg) : res Z :=
  match period with
  | PStr s => period_to_int s
  | PInt n => Ok n
  end.

(** The validation size [_tune] works with. *)
Definition resolve_val_size (ys : series) (val_size : option nat) : nat :=
  match val_size with
  | None => default_val_size ys
  | Some v => v
  end.

(** The world once [self.period] is assigned. *)
Definition with_period (p : Z) (w : world) : world := (set_period p w).2.

(** The outcome of the [try] block of every grid combination, in the
    order of the loop, for the period [p] and the metric function
    [metric_fun]. *)
Definition candidate_outcomes (y : loc) (p : Z)
    (metric_fun : series → series → res float) (val_size : option nat)
    (w : world) : list (res float) :=
  let ys := default [] (heap w !! y) in
  let '(y_train, y_val) := train_val_split ys (resolve_val_size ys val_size) in
  (λ permutation,
     (candidate_score y_train y_val metric_fun permutation (with_period p w)).1)
    <$> params_permutations.

(** The list [scores] at the end of the loop. *)
Definition recorded_scores (y : loc) (p : Z)
    (metric_fun : series → series → res float) (val_size : option nat)
    (w : world) : list float :=
  recorded <$> candidate_outcomes y p metric_fun val_size w.

(** The world [_tune] returns in when [best] is the selected combination:
    [self.params.update(best)], [self.params["tuned"] = True]. *)
Definition tuned_world (p : Z) (best : dict) (w : world) : world :=
  {| self := {| self_period := Some p;
                self_params := <["tuned" := VBool true]> (update (self_params (self w)) best);
                self_model := self_model (self w);
                self_y := self_y (self w);
                self_name := self_name (self w);
                self_key := self_key (self w) |};
     heap := heap w |}.

(** The world once [fit] has assigned [self.y], [self.name] and
    [self.key] (lines 77-79). *)
Definition entered (y : loc) (w : world) : world :=
  {| self := {| self_period := self_period (self w);
                self_params := self_params (self w);
                self_model := self_model (self w);
                self_y := Some y;
                self_name := Some "Holt-Winters Exponential Smoothing";
                self_key := Some "holt_winters" |};
     heap := heap w |}.

(** The world once [self.model] is assigned. *)
Definition with_model (m : HWResults) (w : world) : world := (set_model m w).2.

End Outcome.

(** ** The registry of models ([tsaugur/models/__init__.py]) *)

Definition MODEL_KEY_SARIMA : string := "sarima".
Definition MODEL_KEY_FOURIER_SARIMA : string := "fourier_sarima".
Definition MODEL_KEY_HOLT_WINTERS : string := "holt_winters".

(** The three objects the module builds when it is imported: [Sarima()],
    [FourierSarima()] and [HoltWinters()]. *)
Inductive instance :=
  | SarimaInstance
  | FourierSarimaInstance
  | HoltWintersInstance.

(** [MODELS], a dict literal: its items are inserted in order. *)
Definition MODELS : gmap string instance :=
  <[MODEL_KEY_HOLT_WINTERS := HoltWintersInstance]>
    (<[MODEL_KEY_FOURIER_SARIMA := FourierSarimaInstance]>
       (<[MODEL_KEY_SARIMA := SarimaInstance]> ∅)).

(** [create_model(model_key)]: [return MODELS[model_key]]. *)
Definition create_model (model_key : string) : res instance :=
  match MODELS !! model_key with
  | Some model => Ok model
  | None => Raise (KeyError model_key)
  end.

(** ** A scripted collaborator, for running the model on concrete inputs *)

Module Double.

(** The five hyperparameters a fitted model was built with. *)
Definition candidate : Type := pyval * pyval * pyval * pyval * pyval.

(** The metric of the double. *)
Definition first_forecast (y_true y_pred : series) : res float :=
  Ok (default S754_nan (head y_pred)).

(** [scripted script]: fitting the candidate [c] raises when [script c]
    raises; otherwise every forecast value is [script c], and every metric
    returns the first forecast value (NaN for an empty forecast). *)
Definition scripted (script : candidate → res float) : Externals := {|
  ESModel := pyval * pyval * pyval;
  HWResults := float;
  ExponentialSmoothing := λ _ _ trend seasonal damped, Ok (trend, seasonal, damped);
  model_fit := λ m use_boxcox remove_bias, script (m, use_boxcox, remove_bias);
  forecast := λ x steps, Ok (replicate steps x);
  forecast_has_values := λ _, true;
  period_to_int := λ s,
    if bool_decide (s = "monthly" ∨ s = "m") then Ok 12%Z
    else if bool_decide (s = "weekly" ∨ s = "w") then Ok 52%Z
    else Raise (KeyError s);
  get_metric := λ name,
    if bool_decide (name ∈ ["mse"; "mae"; "mape"; "smape"; "rmse"])
    then Ok first_forecast
    else Raise (KeyError name)
|}.

(** The double [n * 2^e]. *)
Definition fl (n : positive) (e : Z) : float := S754_finite false n e.

(** A series of 24 observations, 1.0 to 24.0. *)
Definition y24 : series := (λ n, fl (Pos.of_nat n) 0) <$> seq 1 24.

(** An instance before [fit], and a world holding [y24] at location 1. *)
Definition fresh `{Externals} : HoltWinters := {|
  self_period := None;
  self_params := ∅;
  self_model := None;
  self_y := None;
  self_name := None;
  self_key := None
|}.
Definition w0 `{Externals} : world := {| self := fresh; heap := {[1%positive := y24]} |}.

(** Every candidate fits and scores 0.5. *)
Definition all_half : Externals := scripted (λ _, Ok (fl 1 (-1))).

(** Every candidate fails to fit. *)
Definition all_fail : Externals := scripted (λ _, Raise (ValueError "fit")).

(** Only the candidate [c] fits, and its score is [x]. *)
Definition only (c : candidate) (x : float) : Externals :=
  scripted (λ c', if bool_decide (c' = c) then Ok x else Raise (ValueError "fit")).

(** Candidates with an additive trend fail to fit; the candidate [c]
    scores 0.25 and every other one 0.5. *)
Definition prefers (c : candidate) : Externals :=
  scripted (λ c', if bool_decide (c' = c) then Ok (fl 1 (-2))
                  else if bool_decide (c'.1.1.1.1 = VStr "add")
                       then Raise (ValueError "fit")
                       else Ok (fl 1 (-1))).

(** The metric of the candidate at position 0 is NaN, the candidate [c]
    scores [x], every other candidate fails to fit. *)
Definition nan_first (c : candidate) (x : float) : Externals :=
  scripted (λ c', if bool_decide (c' = c) then Ok x
                  else if bool_decide (c' = (VStr "add", VStr "add", VBool true,
                                             VBool true, VBool true))
                       then Ok S754_nan
                       else Raise (ValueError "fit")).

(** The metric of every candidate is NaN. *)
Definition all_nan : Externals := scripted (λ _, Ok S754_nan).

(** The candidates at positions 0, 1 and 30 of the enumeration. *)
Definition c0 : candidate := (VStr "add", VStr "add", VBool true, VBool true, VBool true).
Definition c1 : candidate := (VStr "add", VStr "add", VBool true, VBool true, VBool false).
Definition c30 : candidate := (VStr "mul", VStr "add", VBool false, VBool true, VBool true).

Definition as_dict (c : candidate) : dict :=
  dict_of [("trend", c.1.1.1.1); ("seasonal", c.1.1.1.2); ("damped", c.1.1.2);
           ("use_boxcox", c.1.2); ("remove_bias", c.2)].

(** [_tune] and [fit] on [y24] with period 12, metric "smape" and a
    validation window of 3, from the fresh instance. *)
Definition run_tune (E : Externals) : res () * world :=
  _tune 1%positive (PInt 12) "smape" (Some 3) w0.
Definition run_fit (E : Externals) : res () * world :=
  fit 1%positive (PInt 12) "smape" (Some 3) w0.

(** An instance that was fitted before, on another series and with other
    hyperparameters, in a world that also holds [y24] at location 1. *)
Definition used (script : candidate → res float) : @world (scripted script) :=
  let E : Externals := scripted script in
  {| self := {| self_period := Some 7%Z;
                self_params := <["tuned" := VBool true]>
                                 (<["trend" := VStr "add"]>
                                    (<["note" := VStr "kept"]> ∅));
                self_model := Some (fl 7 0 : @HWResults E);
                self_y := Some 2%positive;
                self_name := Some "Holt-Winters Exponential Smoothing";
                self_key := Some "holt_winters" |};
     heap := <[2%positive := [fl 1 0; fl 2 0]]> {[1%positive := y24]} |}.

(** Fitting succeeds for every candidate, but only on series of at most 21
    observations: the training part, never the full series. *)
Definition short_only : Externals := {|
  ESModel := pyval * pyval * pyval;
  HWResults := float;
  ExponentialSmoothing := λ endog _ trend seasonal damped,
    if bool_decide (length endog ≤ 21) then Ok (trend, seasonal, damped)
    else Raise (ValueError "endog");
  model_fit := λ _ _ _, Ok (fl 1 (-1));
  forecast := λ x steps, Ok (replicate steps x);
  forecast_has_values := λ _, true;
  period_to_int := λ s, Raise (KeyError s);
  get_metric := λ _, Ok first_forecast
|}.

(** The series is given as a 1-D np.array: every candidate fits and scores
    0.5, and the forecasts are ndarrays. *)
Definition ndarray : Externals := {|
  ESModel := pyval * pyval * pyval;
  HWResults := float;
  ExponentialSmoothing := λ _ _ trend seasonal damped, Ok (trend, seasonal, damped);
  model_fit := λ _ _ _, Ok (fl 1 (-1));
  forecast := λ x steps, Ok (replicate steps x);
  forecast_has_values := λ _, false;
  period_to_int := λ s, Raise (KeyError s);
  get_metric := λ _, Ok first_forecast
|}.

(** A series of 8000000000000009 observations. *)
Definition long_series : series :=
  replicate (Z.to_nat 8000000000000009) (fl 1 0).

End Double.

(* ================================================================== *)
(** ** Order lemmas *)

Lemma SFcompare_rank (x y : float) :
  isnan x = false → isnan y = false →
  SFcompare x y = Some (lex_compare (rank x) (rank y)).
Proof.
  destruct x as [sx|[]| |[] mx ex], y as [sy|[]| |[] my ey];
    try discriminate; intros _ _; try reflexivity; cbn.
  f_equal. rewrite !Z.compare_opp, (Z.compare_antisym ex ey).
  destruct (ex ?= ey)%Z; cbn; try reflexivity.
  symmetry. apply Pos.compare_antisym.
Qed.


Lemma lex_compare_spec (a b : Z * Z * Z) :
  match lex_compare a b with
  | Lt => lex_lt a b
  | Eq => a = b
  | Gt => lex_lt b a
  end.
Proof.
  destruct a as [[a1 a2] a3], b as [[b1 b2] b3]; cbn.
  destruct (Z.compare_spec a1 b1); [|lia..].
  destruct (Z.compare_spec a2 b2); [|lia..].
  destruct (Z.compare_spec a3 b3); [congruence|lia..].
Qed.

Lemma lex_lt_irrefl a : ¬ lex_lt a a.
Proof. destruct a as [[a1 a2] a3]; cbn; lia. Qed.

Lemma lex_lt_trans a b c : lex_lt a b → lex_lt b c → lex_lt a c.
Proof.
  destruct a as [[a1 a2] a3], b as [[b1 b2] b3], c as [[c1 c2] c3]; cbn; lia.
Qed.

Lemma lex_lt_total a b : lex_lt a b ∨ a = b ∨ lex_lt b a.
Proof.
  pose proof (lex_compare_spec a b) as H.
  destruct (lex_compare a b); auto.
Qed.

(** [x < y] on doubles that are not NaN is the strict order of the ranks. *)
Lemma SFltb_rank (x y : float) :
  isnan x = false → isnan y = false →
  SFltb x y = true ↔ lex_lt (rank x) (rank y).
Proof.
  intros Hx Hy. unfold SFltb. rewrite (SFcompare_rank x y Hx Hy).
  pose proof (lex_compare_spec (rank x) (rank y)) as H.
  destruct (lex_compare (rank x) (rank y)); split; intros H'; try done.
  - subst. rewrite H in H'. by apply lex_lt_irrefl in H'.
  - destruct (lex_lt_irrefl (rank x)). by eapply lex_lt_trans.
Qed.

(** [x <= y] on doubles that are not NaN is the negation of [y < x]. *)
Lemma SFleb_rank (x y : float) :
  isnan x = false → isnan y = false →
  SFleb x y = true ↔ ¬ lex_lt (rank y) (rank x).
Proof.
  intros Hx Hy. unfold SFleb. rewrite (SFcompare_rank x y Hx Hy).
  pose proof (lex_compare_spec (rank x) (rank y)) as H.
  destruct (lex_compare (rank x) (rank y)); split; intros H'; try done.
  - rewrite H. apply lex_lt_irrefl.
  - intros H''. destruct (lex_lt_irrefl (rank x)). by eapply lex_lt_trans.
Qed.

Lemma SFltb_nan_l (y : float) : SFltb S754_nan y = false.
Proof. reflexivity. Qed.

Lemma SFltb_nan_r (x : float) : SFltb x S754_nan = false.
Proof. by destruct x. Qed.

Lemma isnan_true (x : float) : isnan x = true → x = S754_nan.
Proof. by destruct x. Qed.

(** ** What [argmin] returns on an array without NaN *)


Lemma nan_free_lookup a j x : nan_free a → a !! j = Some x → isnan x = false.
Proof. intros Ha Hj. eapply (proj1 (Forall_lookup _ _) Ha); eauto. Qed.

Lemma argmin_loop_spec (ip pre : list float) (mi : nat) (mp : float) :
  nan_free (pre ++ ip) →
  pre !! mi = Some mp →
  (∀ j xj, pre !! j = Some xj → ¬ lex_lt (rank xj) (rank mp)) →
  (∀ j xj, j < mi → pre !! j = Some xj → lex_lt (rank mp) (rank xj)) →
  first_min (pre ++ ip) (argmin_loop mi mp (length pre) ip).
Proof.
  revert pre mi mp. induction ip as [|x ip IH]; intros pre mi mp Hnan Hmi Hmin Hfst.
  - rewrite app_nil_r. exists mp. auto.
  - cbn [argmin_loop].
    assert (Hx : isnan x = false).
    { eapply nan_free_lookup; [exact Hnan|]. apply list_lookup_middle. done. }
    assert (Hmp : isnan mp = false).
    { eapply nan_free_lookup; [exact Hnan|]. by apply lookup_app_l_Some. }
    assert (Hlen : length (pre ++ [x]) = S (length pre)).
    { rewrite length_app. cbn. lia. }
    rewrite Hx. replace (pre ++ x :: ip) with ((pre ++ [x]) ++ ip) in *
      by (by rewrite <- app_assoc).
    pose proof (IH (pre ++ [x])) as IH'. rewrite Hlen in IH'.
    destruct (SFleb mp x) eqn:Hle; cbn [negb].
    + apply SFleb_rank in Hle; [|done..].
      apply IH'; [done| by apply lookup_app_l_Some | |].
      * intros j xj Hj. apply lookup_snoc_Some in Hj as [[_ Hj]|[_ <-]]; eauto.
      * intros j xj Hlt Hj. apply lookup_snoc_Some in Hj as [[_ Hj]|[-> _]]; eauto.
        apply lookup_lt_Some in Hmi. lia.
    + assert (Hlt : lex_lt (rank x) (rank mp)).
      { destruct (lex_lt_total (rank x) (rank mp)) as [H|[H|H]]; [done|..].
        - assert (SFleb mp x = true) as E; [|congruence].
          apply SFleb_rank; [done..|]. rewrite H. apply lex_lt_irrefl.
        - assert (SFleb mp x = true) as E; [|congruence].
          apply SFleb_rank; [done..|]. intros H'.
          destruct (lex_lt_irrefl (rank x)). by eapply lex_lt_trans. }
      apply IH'; [done | by apply list_lookup_middle | |].
      * intros j xj Hj H'. apply lookup_snoc_Some in Hj as [[_ Hj]|[_ <-]].
        -- eapply Hmin; [exact Hj|]. by eapply lex_lt_trans.
        -- by apply lex_lt_irrefl in H'.
      * intros j xj Hj' Hj. apply lookup_snoc_Some in Hj as [[_ Hj]|[-> _]]; [|lia].
        destruct (lex_lt_total (rank x) (rank xj)) as [H|[H|H]]; [done|..].
        -- rewrite <- H in *. destruct (Hmin _ _ Hj). rewrite <- H. done.
        -- destruct (Hmin _ _ Hj). by eapply lex_lt_trans.
Qed.

Lemma argmin_spec (a : list float) :
  nan_free a → a ≠ [] → ∃ i, argmin a = Ok i ∧ first_min a i.
Proof.
  intros Hnan Hne. destruct a as [|mp ip]; [done|]. cbn [argmin].
  assert (Hmp : isnan mp = false) by (by eapply (nan_free_lookup _ 0)).
  rewrite Hmp. eexists; split; [done|].
  apply (argmin_loop_spec ip [mp] 0 mp Hnan); [done|..].
  - intros [|j] xj Hj; [|done]. injection Hj as <-. apply lex_lt_irrefl.
  - intros j xj Hj. lia.
Qed.

Lemma replace_nan_nan_free (a : list float) : nan_free (replace_nan a).
Proof.
  unfold nan_free, replace_nan. apply Forall_map, Forall_forall.
  intros x _. cbn. by destruct x.
Qed.

Lemma replace_nan_lookup (a : list float) (j : nat) :
  replace_nan a !! j = (λ x, if isnan x then np_inf else x) <$> a !! j.
Proof. unfold replace_nan. apply list_lookup_fmap. Qed.

Lemma forallb_isnan (a : list float) :
  forallb isnan a = true ↔ ∀ j x, a !! j = Some x → isnan x = true.
Proof.
  rewrite forallb_forall. split.
  - intros Ha j x Hj. apply Ha, list_elem_of_In, list_elem_of_lookup. eauto.
  - intros Ha x Hx. apply list_elem_of_In, list_elem_of_lookup in Hx as [j Hj]. eauto.
Qed.

(** [nanargmin] returns exactly when some entry is not NaN, and then it
    returns the first index of a least entry of the array with its NaNs
    replaced by [+inf]. *)
Lemma nanargmin_Ok (a : list float) (i : nat) :
  nanargmin a = Ok i → first_min (replace_nan a) i.
Proof.
  unfold nanargmin. destruct (bool_decide (a ≠ []) && forallb isnan a) eqn:E; [done|].
  intros Hi. destruct a as [|x a']; [done|].
  destruct (argmin_spec (replace_nan (x :: a'))) as (i' & Hi' & Hmin);
    [apply replace_nan_nan_free | done | congruence].
Qed.

Lemma nanargmin_some (a : list float) (j : nat) (x : float) :
  a !! j = Some x → isnan x = false → ∃ i, nanargmin a = Ok i.
Proof.
  intros Hj Hx. unfold nanargmin.
  assert (forallb isnan a = false) as ->.
  { apply not_true_is_false. rewrite forallb_isnan. intros Ha.
    specialize (Ha _ _ Hj). congruence. }
  rewrite andb_false_r.
  destruct (argmin_spec (replace_nan a)) as (i & Hi & _); eauto.
  - apply replace_nan_nan_free.
  - by destruct a.
Qed.

Lemma nanargmin_all_nan (a : list float) :
  a ≠ [] → (∀ j x, a !! j = Some x → isnan x = true) →
  nanargmin a = Raise (ValueError "All-NaN slice encountered").
Proof.
  intros Hne Ha. unfold nanargmin.
  rewrite (bool_decide_eq_true_2 _ Hne), (proj2 (forallb_isnan a) Ha). done.
Qed.

Lemma first_min_lt_length (a : list float) (i : nat) :
  first_min a i → i < length a.
Proof. intros (xi & Hi & _). by eapply lookup_lt_Some. Qed.

Lemma replace_nan_length (a : list float) : length (replace_nan a) = length a.
Proof. unfold replace_nan. apply length_map. Qed.

(** ** Running statements *)

Section Run.
Context `{Externals}.

Lemma bind_call {A B} (r : res A) (f : A → M B) (w : world) :
  (call r ≫= f) w = match r with Ok a => f a w | Raise e => (Raise e, w) end.
Proof. unfold mbind, M_bind, call. by destruct r. Qed.

Lemma bind_ret {A B} (a : A) (f : A → M B) (w : world) :
  (mret a ≫= f) w = f a w.
Proof. done. Qed.

Lemma bind_run {A B} (m : M A) (f : A → M B) (w : world) :
  (m ≫= f) w = match m w with (Ok a, w') => f a w' | (Raise e, w') => (Raise e, w') end.
Proof. done. Qed.

(** The statements of the [try] block write nothing. *)
Lemma candidate_score_world y_train y_val metric_fun permutation w :
  (candidate_score y_train y_val metric_fun permutation w).2 = w.
Proof.
  unfold candidate_score, get_period, get_self, call, mbind, M_bind, mret, M_ret.
  repeat case_match; simplify_eq/=; done.
Qed.

(** The outcome of the [try] block, stage by stage: building the model,
    fitting it, forecasting the validation window, scoring. *)
Lemma candidate_score_stages y_train y_val metric_fun permutation w
    p trend seasonal damped use_boxcox remove_bias :
  self_period (self w) = Some p →
  permutation !! "trend" = Some trend →
  permutation !! "seasonal" = Some seasonal →
  permutation !! "damped" = Some damped →
  permutation !! "use_boxcox" = Some use_boxcox →
  permutation !! "remove_bias" = Some remove_bias →
  (candidate_score y_train y_val metric_fun permutation w).1
  = match ExponentialSmoothing y_train p trend seasonal damped with
    | Raise e => Raise e
    | Ok model =>
        match model_fit model use_boxcox remove_bias with
        | Raise e => Raise e
        | Ok fitted =>
            match forecast fitted (length y_val) with
            | Raise e => Raise e
            | Ok y_pred => metric_fun y_val y_pred
            end
        end
    end.
Proof.
  intros Hp Ht Hs Hd Hu Hr.
  unfold candidate_score, get_period, get_self, getitem, call, mbind, M_bind, mret, M_ret.
  rewrite Hp, Ht, Hs, Hd, Hu, Hr.
  repeat case_match; simplify_eq/=; done.
Qed.

Lemma candidate_score_run y_train y_val metric_fun permutation w :
  candidate_score y_train y_val metric_fun permutation w
  = ((candidate_score y_train y_val metric_fun permutation w).1, w).
Proof.
  rewrite <- (candidate_score_world y_train y_val metric_fun permutation w) at 3.
  by destruct (candidate_score _ _ _ _ _).
Qed.

Lemma tune_step_run y_train y_val metric_fun scores permutation w :
  tune_step y_train y_val metric_fun scores permutation w
  = (Ok (scores ++ [recorded (candidate_score y_train y_val metric_fun permutation w).1]), w).
Proof.
  unfold tune_step, try_except. rewrite bind_run, candidate_score_run. cbn [fst].
  by destruct (candidate_score _ _ _ _ _).1.
Qed.

Lemma tune_loop_run y_train y_val metric_fun permutations scores w :
  tune_loop y_train y_val metric_fun permutations scores w
  = (Ok (scores ++ ((λ permutation,
                       recorded (candidate_score y_train y_val metric_fun permutation w).1)
                    <$> permutations)), w).
Proof.
  revert scores. induction permutations as [|p ps IH]; intros scores; cbn [tune_loop].
  - by rewrite app_nil_r.
  - rewrite bind_run, tune_step_run, IH, <- app_assoc. done.
Qed.

Lemma recorded_scores_length y p metric_fun val_size w :
  length (recorded_scores y p metric_fun val_size w) = 48.
Proof.
  unfold recorded_scores, candidate_outcomes.
  destruct (train_val_split _ _). by rewrite !length_fmap.
Qed.

(** [_tune], once the period and the metric are resolved. *)
Lemma _tune_run y period metric val_size w p metric_fun :
  resolve_period period = Ok p →
  get_metric metric = Ok metric_fun →
  _tune y period metric val_size w
  = match nanargmin (recorded_scores y p metric_fun val_size w) with
    | Ok i =>
        match params_permutations !! i with
        | Some best => (Ok (), tuned_world p best w)
        | None => (Raise (IndexError "list index out of range"), with_period p w)
        end
    | Raise e => (Raise e, with_period p w)
    end.
Proof.
  intros Hp Hm. unfold _tune, recorded_scores, candidate_outcomes.
  assert ((match period with
           | PStr s => call (period_to_int s)
           | PInt n => mret n
           end : M Z) = call (Ok p)) as ->.
  { destruct period; cbn in Hp; [injection Hp as -> | rewrite Hp]; done. }
  rewrite bind_call, bind_run. cbn [set_period set_self].
  change ({| self := _; heap := heap w |}) with (with_period p w).
  unfold read at 1. rewrite bind_run.
  change (heap (with_period p w)) with (heap w).
  fold (resolve_val_size (default [] (heap w !! y)) val_size).
  destruct (train_val_split _ _) as [y_train y_val].
  rewrite bind_call, Hm, bind_run, tune_loop_run. cbn [app].
  rewrite <- list_fmap_compose.
  rewrite bind_call. destruct (nanargmin _) as [i|e]; [|done].
  rewrite bind_call. unfold list_index.
  destruct (params_permutations !! i) as [best|]; [|done].
  done.
Qed.

End Run.

(** ** The entry [nanargmin] selects, in terms of the scores themselves *)

Lemma SFcompare_nan_l (y : float) : SFcompare S754_nan y = None.
Proof. reflexivity. Qed.

Lemma SFcompare_nan_r (x : float) : SFcompare x S754_nan = None.
Proof. by destruct x. Qed.

Lemma rank_replace (x : float) :
  isnan x = false → rank (if isnan x then np_inf else x) = rank x.
Proof. by intros ->. Qed.

Section Selected.
Variables (a : list float) (i : nat).
Hypothesis Hsel : nanargmin a = Ok i.

Lemma selected_lookup : ∃ si, a !! i = Some si.
Proof.
  apply lookup_lt_is_Some. rewrite <- replace_nan_length.
  apply first_min_lt_length, nanargmin_Ok, Hsel.
Qed.

(** No score is below the selected one. *)
Lemma selected_minimal si j sj :
  a !! i = Some si → a !! j = Some sj → SFltb sj si = false.
Proof.
  intros Hi Hj. destruct (isnan si) eqn:Esi.
  { apply isnan_true in Esi as ->. apply SFltb_nan_r. }
  destruct (isnan sj) eqn:Esj.
  { apply isnan_true in Esj as ->. apply SFltb_nan_l. }
  apply nanargmin_Ok in Hsel as (xi & Hxi & Hmin & _).
  rewrite replace_nan_lookup, Hi in Hxi. injection Hxi as <-.
  specialize (Hmin j (if isnan sj then np_inf else sj)).
  rewrite replace_nan_lookup, Hj, !rank_replace in Hmin by done.
  apply not_true_is_false. rewrite SFltb_rank by done. auto.
Qed.

(** No earlier score ties with the selected one. *)
Lemma selected_first si j sj :
  a !! i = Some si → j < i → a !! j = Some sj → SFcompare sj si ≠ Some Eq.
Proof.
  intros Hi Hlt Hj. destruct (isnan si) eqn:Esi.
  { apply isnan_true in Esi as ->. by rewrite SFcompare_nan_r. }
  destruct (isnan sj) eqn:Esj.
  { apply isnan_true in Esj as ->. by rewrite SFcompare_nan_l. }
  apply nanargmin_Ok in Hsel as (xi & Hxi & _ & Hfst).
  rewrite replace_nan_lookup, Hi in Hxi. injection Hxi as <-.
  specialize (Hfst j (if isnan sj then np_inf else sj) Hlt).
  rewrite replace_nan_lookup, Hj, !rank_replace in Hfst by done.
  specialize (Hfst eq_refl).
  rewrite SFcompare_rank by done.
  pose proof (lex_compare_spec (rank sj) (rank si)) as Hc.
  destruct (lex_compare (rank sj) (rank si)); [|done..].
  rewrite Hc in Hfst. by apply lex_lt_irrefl in Hfst.
Qed.

(** Without NaN the selected score is a least one, and every earlier
    score is strictly above it. *)
Lemma selected_least si j sj :
  nan_free a → a !! i = Some si → a !! j = Some sj → SFleb si sj = true.
Proof.
  intros Hnan Hi Hj.
  pose proof (nan_free_lookup _ _ _ Hnan Hi) as Esi.
  pose proof (nan_free_lookup _ _ _ Hnan Hj) as Esj.
  apply nanargmin_Ok in Hsel as (xi & Hxi & Hmin & _).
  rewrite replace_nan_lookup, Hi in Hxi. injection Hxi as <-.
  specialize (Hmin j (if isnan sj then np_inf else sj)).
  rewrite replace_nan_lookup, Hj, !rank_replace in Hmin by done.
  rewrite SFleb_rank by done. auto.
Qed.

Lemma selected_strict si j sj :
  nan_free a → a !! i = Some si → j < i → a !! j = Some sj → SFltb si sj = true.
Proof.
  intros Hnan Hi Hlt Hj.
  pose proof (nan_free_lookup _ _ _ Hnan Hi) as Esi.
  pose proof (nan_free_lookup _ _ _ Hnan Hj) as Esj.
  apply nanargmin_Ok in Hsel as (xi & Hxi & _ & Hfst).
  rewrite replace_nan_lookup, Hi in Hxi. injection Hxi as <-.
  specialize (Hfst j (if isnan sj then np_inf else sj) Hlt).
  rewrite replace_nan_lookup, Hj, !rank_replace in Hfst by done.
  rewrite SFltb_rank by done. auto.
Qed.

(** A score below [+inf] keeps every NaN from being selected. *)
Lemma selected_not_nan si j sj :
  a !! i = Some si → a !! j = Some sj → SFltb sj np_inf = true → isnan si = false.
Proof.
  intros Hi Hj Hlt. destruct (isnan si) eqn:Esi; [|done].
  assert (Esj : isnan sj = false) by (by destruct sj).
  apply nanargmin_Ok in Hsel as (xi & Hxi & Hmin & _).
  rewrite replace_nan_lookup, Hi in Hxi. injection Hxi as <-.
  specialize (Hmin j (if isnan sj then np_inf else sj)).
  rewrite replace_nan_lookup, Hj, Esi, rank_replace in Hmin by done.
  destruct Hmin; [done|]. by apply SFltb_rank.
Qed.

End Selected.

(** ** When [_tune] returns and when it raises *)

Section Tune.
Context `{Externals}.

Lemma _tune_raise_period y period metric val_size w e :
  resolve_period period = Raise e →
  _tune y period metric val_size w = (Raise e, w).
Proof.
  intros Hp. unfold _tune. destruct period as [n|s]; cbn in Hp; [done|].
  by rewrite bind_call, Hp.
Qed.

Lemma _tune_raise_metric y period metric val_size w p e :
  resolve_period period = Ok p →
  get_metric metric = Raise e →
  _tune y period metric val_size w = (Raise e, with_period p w).
Proof.
  intros Hp Hm. unfold _tune.
  assert ((match period with
           | PStr s => call (period_to_int s)
           | PInt n => mret n
           end : M Z) = call (Ok p)) as ->.
  { destruct period; cbn in Hp; [injection Hp as -> | rewrite Hp]; done. }
  rewrite bind_call, bind_run. cbn [set_period set_self].
  unfold read at 1. rewrite bind_run.
  destruct (train_val_split _ _) as [y_train y_val].
  by rewrite bind_call, Hm.
Qed.

(** The index [nanargmin] returns on the recorded scores is an index of
    the grid. *)
Lemma selected_in_grid y p metric_fun val_size w i :
  nanargmin (recorded_scores y p metric_fun val_size w) = Ok i →
  ∃ best, params_permutations !! i = Some best.
Proof.
  intros Hi. apply lookup_lt_is_Some.
  destruct (selected_lookup _ _ Hi) as [si Hsi].
  apply lookup_lt_Some in Hsi. by rewrite recorded_scores_length in Hsi.
Qed.

(** [_tune] returns exactly when the period and the metric resolve and
    [nanargmin] returns an index; the world is then [tuned_world]. *)
Lemma _tune_Ok_inv y period metric val_size w w' :
  _tune y period metric val_size w = (Ok (), w') →
  ∃ p metric_fun i best,
    resolve_period period = Ok p
    ∧ get_metric metric = Ok metric_fun
    ∧ nanargmin (recorded_scores y p metric_fun val_size w) = Ok i
    ∧ params_permutations !! i = Some best
    ∧ w' = tuned_world p best w.
Proof.
  intros Hrun. destruct (resolve_period period) as [p|e] eqn:Hp.
  2: { by rewrite (_tune_raise_period _ _ _ _ _ _ Hp) in Hrun. }
  destruct (get_metric metric) as [metric_fun|e] eqn:Hm.
  2: { by rewrite (_tune_raise_metric _ _ _ _ _ _ _ Hp Hm) in Hrun. }
  rewrite (_tune_run _ _ _ _ _ _ _ Hp Hm) in Hrun.
  destruct (nanargmin _) as [i|e] eqn:Hi; [|done].
  destruct (selected_in_grid _ _ _ _ _ _ Hi) as [best Hbest].
  rewrite Hbest in Hrun. injection Hrun as <-.
  by exists p, metric_fun, i, best.
Qed.

Lemma _tune_Ok y period metric val_size w p metric_fun i :
  resolve_period period = Ok p →
  get_metric metric = Ok metric_fun →
  nanargmin (recorded_scores y p metric_fun val_size w) = Ok i →
  ∃ best, params_permutations !! i = Some best
          ∧ _tune y period metric val_size w = (Ok (), tuned_world p best w).
Proof.
  intros Hp Hm Hi. destruct (selected_in_grid _ _ _ _ _ _ Hi) as [best Hbest].
  exists best. split; [done|].
  by rewrite (_tune_run _ _ _ _ _ _ _ Hp Hm), Hi, Hbest.
Qed.

Lemma tune_world_cases y period metric val_size (w : world) :
  (_tune y period metric val_size w).2 = w
  ∨ (∃ p, (_tune y period metric val_size w).2 = with_period p w)
  ∨ (∃ p best, (_tune y period metric val_size w).2 = tuned_world p best w).
Proof.
  destruct (resolve_period period) as [p|e] eqn:Hp.
  2: { left. by rewrite (_tune_raise_period _ _ _ _ _ _ Hp). }
  destruct (get_metric metric) as [metric_fun|e] eqn:Hm.
  2: { right; left. exists p. by rewrite (_tune_raise_metric _ _ _ _ _ _ _ Hp Hm). }
  rewrite (_tune_run _ _ _ _ _ _ _ Hp Hm).
  destruct (nanargmin _) as [i|e]; [|right; left; by exists p].
  destruct (params_permutations !! i) as [best|]; [|right; left; by exists p].
  right; right. by exists p, best.
Qed.

Lemma tune_raise_world y period metric val_size (w w' : world) e :
  _tune y period metric val_size w = (Raise e, w') →
  w' = w ∨ ∃ p, w' = with_period p w.
Proof.
  intros Hrun. destruct (resolve_period period) as [p|e'] eqn:Hp.
  2: { rewrite (_tune_raise_period _ _ _ _ _ _ Hp) in Hrun. left. congruence. }
  right. exists p.
  destruct (get_metric metric) as [metric_fun|e'] eqn:Hm.
  2: { rewrite (_tune_raise_metric _ _ _ _ _ _ _ Hp Hm) in Hrun. congruence. }
  rewrite (_tune_run _ _ _ _ _ _ _ Hp Hm) in Hrun.
  destruct (nanargmin _) as [i|e'] eqn:Hi; [|congruence].
  destruct (selected_in_grid _ _ _ _ _ _ Hi) as [best Hbest].
  by rewrite Hbest in Hrun.
Qed.

End Tune.

(** ** The claims *)

Lemma replaced_not_nan (x : float) : isnan (if isnan x then np_inf else x) = false.
Proof. by destruct x. Qed.

(** With every NaN counted as [+inf], the selected score is a least one and
    every earlier score is strictly above it. *)
Lemma selected_key_least (a : list float) (i j : nat) (si sj : float) :
  nanargmin a = Ok i → a !! i = Some si → a !! j = Some sj →
  SFleb (if isnan si then np_inf else si) (if isnan sj then np_inf else sj) = true.
Proof.
  intros Hsel Hi Hj. apply nanargmin_Ok in Hsel as (xi & Hxi & Hmin & _).
  rewrite replace_nan_lookup, Hi in Hxi. injection Hxi as <-.
  apply SFleb_rank; [apply replaced_not_nan..|].
  apply (Hmin j). by rewrite replace_nan_lookup, Hj.
Qed.

Lemma selected_key_strict (a : list float) (i j : nat) (si sj : float) :
  nanargmin a = Ok i → a !! i = Some si → j < i → a !! j = Some sj →
  SFltb (if isnan si then np_inf else si) (if isnan sj then np_inf else sj) = true.
Proof.
  intros Hsel Hi Hlt Hj. apply nanargmin_Ok in Hsel as (xi & Hxi & _ & Hfst).
  rewrite replace_nan_lookup, Hi in Hxi. injection Hxi as <-.
  apply SFltb_rank; [apply replaced_not_nan..|].
  apply (Hfst j); [done|]. by rewrite replace_nan_lookup, Hj.
Qed.

(** C1. Whenever [_tune] returns, the combination it copies into [params]
    is the first one of the enumeration whose recorded score is minimal,
    every NaN score counting as positive infinity, as [np.nanargmin] counts
    it: the selected position is the first minimum of the recorded scores
    with NaN replaced by [+inf]; the selected score is below or equal to
    every recorded score and strictly below every earlier one.  In terms of
    the scores as recorded: no recorded score is below the selected one, no
    earlier one ties with it, and without NaN the selected score is below
    or equal to all and strictly below the earlier ones. *)
Theorem tune_selects_first_minimum `{Externals}
    (y : loc) (period : period_arg) (metric : string) (val_size : option nat)
    (w w' : world) :
  _tune y period metric val_size w = (Ok (), w') →
  ∃ p metric_fun i best si,
    resolve_period period = Ok p
    ∧ get_metric metric = Ok metric_fun
    ∧ params_permutations !! i = Some best
    ∧ recorded_scores y p metric_fun val_size w !! i = Some si
    ∧ w' = tuned_world p best w
    ∧ nanargmin (recorded_scores y p metric_fun val_size w) = Ok i
    ∧ first_min (replace_nan (recorded_scores y p metric_fun val_size w)) i
    ∧ (∀ j sj, recorded_scores y p metric_fun val_size w !! j = Some sj →
               SFleb (if isnan si then np_inf else si)
                     (if isnan sj then np_inf else sj) = true
               ∧ (j < i →
                  SFltb (if isnan si then np_inf else si)
                        (if isnan sj then np_inf else sj) = true))
    ∧ (∀ j sj, recorded_scores y p metric_fun val_size w !! j = Some sj →
               SFltb sj si = false)
    ∧ (∀ j sj, j < i →
               recorded_scores y p metric_fun val_size w !! j = Some sj →
               SFcompare sj si ≠ Some Eq)
    ∧ (nan_free (recorded_scores y p metric_fun val_size w) →
       ∀ j sj, recorded_scores y p metric_fun val_size w !! j = Some sj →
               SFleb si sj = true ∧ (j < i → SFltb si sj = true)).
Proof.
  intros Hrun.
  apply _tune_Ok_inv in Hrun as (p & metric_fun & i & best & Hp & Hm & Hi & Hbest & ->).
  destruct (selected_lookup _ _ Hi) as [si Hsi].
  exists p, metric_fun, i, best, si. split_and!; try done.
  - by apply nanargmin_Ok.
  - intros j sj Hj. split.
    + by eapply selected_key_least.
    + intros Hlt. by eapply selected_key_strict.
  - intros j sj Hj. by eapply selected_minimal.
  - intros j sj Hlt Hj. by eapply selected_first.
  - intros Hnan j sj Hj. split.
    + by eapply selected_least.
    + intros Hlt. by eapply selected_strict.
Qed.

(** C2. The loop over the grid always runs to its end and returns: it
    records one score per combination, a combination whose [try] block
    (building and fitting the model, forecasting, scoring) raised any
    exception is recorded with [np.inf], one whose block returned a score
    is recorded with that score, and the world is left as it was. *)
Theorem tune_loop_catches_every_failure `{Externals}
    (y_train y_val : series) (metric_fun : series → series → res float)
    (permutations : list dict) (scores : list float) (w : world) :
  ∃ scores',
    tune_loop y_train y_val metric_fun permutations scores w = (Ok scores', w)
    ∧ length scores' = length scores + length permutations
    ∧ ∀ i permutation, permutations !! i = Some permutation →
        (∀ e, (candidate_score y_train y_val metric_fun permutation w).1 = Raise e →
              scores' !! (length scores + i) = Some np_inf)
        ∧ (∀ score, (candidate_score y_train y_val metric_fun permutation w).1 = Ok score →
              scores' !! (length scores + i) = Some score).
Proof.
  eexists. split; [apply tune_loop_run|]. split.
  { by rewrite length_app, length_fmap. }
  intros i permutation Hi.
  assert (∀ r, (candidate_score y_train y_val metric_fun permutation w).1 = r →
    (scores ++ ((λ permutation0,
        recorded (candidate_score y_train y_val metric_fun permutation0 w).1)
      <$> permutations)) !! (length scores + i) = Some (recorded r)) as Hrec.
  { intros r <-. rewrite lookup_app_r by lia.
    replace (length scores + i - length scores) with i by lia.
    by rewrite list_lookup_fmap, Hi. }
  split; [intros e He | intros score He]; by rewrite (Hrec _ He).
Qed.

Lemma tune_selects_first_minimum_witness :
  let E : Externals := Double.nan_first Double.c30 (Double.fl 1 (-2)) in
  Double.run_tune E = (Ok (), tuned_world 12 (Double.as_dict Double.c30) Double.w0)
  ∧ ∃ p metric_fun i best si,
      resolve_period (PInt 12) = Ok p
      ∧ get_metric "smape" = Ok metric_fun
      ∧ params_permutations !! i = Some best
      ∧ recorded_scores 1%positive p metric_fun (Some 3) Double.w0 !! i = Some si
      ∧ tuned_world 12 (Double.as_dict Double.c30) Double.w0 = tuned_world p best Double.w0
      ∧ nanargmin (recorded_scores 1%positive p metric_fun (Some 3) Double.w0) = Ok i
      ∧ first_min (replace_nan (recorded_scores 1%positive p metric_fun (Some 3) Double.w0)) i
      ∧ (∀ j sj, recorded_scores 1%positive p metric_fun (Some 3) Double.w0 !! j = Some sj →
                 SFleb (if isnan si then np_inf else si)
                       (if isnan sj then np_inf else sj) = true
                 ∧ (j < i →
                    SFltb (if isnan si then np_inf else si)
                          (if isnan sj then np_inf else sj) = true))
      ∧ (∀ j sj, recorded_scores 1%positive p metric_fun (Some 3) Double.w0 !! j = Some sj →
                 SFltb sj si = false)
      ∧ (∀ j sj, j < i →
                 recorded_scores 1%positive p metric_fun (Some 3) Double.w0 !! j = Some sj →
                 SFcompare sj si ≠ Some Eq)
      ∧ (nan_free (recorded_scores 1%positive p metric_fun (Some 3) Double.w0) →
         ∀ j sj, recorded_scores 1%positive p metric_fun (Some 3) Double.w0 !! j = Some sj →
                 SFleb si sj = true ∧ (j < i → SFltb si sj = true)).
Proof.
  intros E.
  assert (Double.run_tune E
          = (Ok (), tuned_world 12 (Double.as_dict Double.c30) Double.w0)) as Hrun
    by (vm_compute; reflexivity).
  split; [exact Hrun|].
  exact (tune_selects_first_minimum 1%positive (PInt 12) "smape" (Some 3) _ _ Hrun).
Defined.

Lemma recorded_scores_lookup `{Externals} y p metric_fun val_size w (j : nat) :
  recorded_scores y p metric_fun val_size w !! j
  = recorded <$> candidate_outcomes y p metric_fun val_size w !! j.
Proof. unfold recorded_scores. apply list_lookup_fmap. Qed.

(** C3, as stated, fails: only the candidate at position 1 succeeds, its
    metric is [+inf], and [_tune] selects the candidate at position 0,
    which failed. *)
Lemma sole_success_with_inf_score_not_selected :
  let E : Externals := Double.only Double.c1 np_inf in
  candidate_outcomes 1%positive 12 Double.first_forecast (Some 3) Double.w0
  = <[1 := Ok np_inf]> (replicate 48 (Raise (ValueError "fit")))
  ∧ params_permutations !! 1 = Some (Double.as_dict Double.c1)
  ∧ params_permutations !! 0 = Some (Double.as_dict Double.c0)
  ∧ Double.run_tune E = (Ok (), tuned_world 12 (Double.as_dict Double.c0) Double.w0)
  ∧ Double.run_tune E ≠ (Ok (), tuned_world 12 (Double.as_dict Double.c1) Double.w0).
Proof.
  intros E. repeat split; try (vm_compute; reflexivity).
  intros Heq.
  assert (self_params (self (Double.run_tune E).2) !! "remove_bias" = Some (VBool false)) as Hfalse
    by (by rewrite Heq).
  vm_compute in Hfalse. discriminate Hfalse.
Qed.

(** C3, amended. If exactly one candidate succeeds and its score is below
    positive infinity, [_tune] returns and that candidate is the one copied
    into [params]. *)
Theorem sole_success_below_inf_selected `{Externals}
    (y : loc) (period : period_arg) (metric : string) (val_size : option nat)
    (w : world) (p : Z) (metric_fun : series → series → res float)
    (k : nat) (best : dict) (score : float) :
  resolve_period period = Ok p →
  get_metric metric = Ok metric_fun →
  params_permutations !! k = Some best →
  candidate_outcomes y p metric_fun val_size w !! k = Some (Ok score) →
  (∀ j r, j ≠ k → candidate_outcomes y p metric_fun val_size w !! j = Some r →
          ∃ e, r = Raise e) →
  SFltb score np_inf = true →
  _tune y period metric val_size w = (Ok (), tuned_world p best w).
Proof.
  intros Hp Hm Hbest Hk Hothers Hlt.
  assert (Hsk : recorded_scores y p metric_fun val_size w !! k = Some score).
  { by rewrite recorded_scores_lookup, Hk. }
  assert (Hnan : isnan score = false) by (by destruct score).
  destruct (nanargmin_some _ _ _ Hsk Hnan) as [i Hi].
  destruct (_tune_Ok y period metric val_size w p metric_fun i Hp Hm Hi)
    as (best' & Hbest' & Hrun).
  destruct (decide (i = k)) as [->|Hne]; [congruence|].
  destruct (selected_lookup _ _ Hi) as [si Hsi].
  pose proof (selected_minimal _ _ Hi si k score Hsi Hsk) as Hmin.
  rewrite recorded_scores_lookup in Hsi.
  destruct (candidate_outcomes y p metric_fun val_size w !! i) as [r|] eqn:Hr; [|done].
  destruct (Hothers i r Hne Hr) as [e ->]. cbn in Hsi. injection Hsi as <-.
  congruence.
Qed.

Lemma sole_success_below_inf_selected_witness :
  let E : Externals := Double.only Double.c30 (Double.fl 3 0) in
  (resolve_period (PInt 12) = Ok 12%Z
   ∧ get_metric "smape" = Ok Double.first_forecast
   ∧ params_permutations !! 30 = Some (Double.as_dict Double.c30)
   ∧ candidate_outcomes 1%positive 12 Double.first_forecast (Some 3) Double.w0 !! 30
     = Some (Ok (Double.fl 3 0))
   ∧ (∀ j r, j ≠ 30 →
        candidate_outcomes 1%positive 12 Double.first_forecast (Some 3) Double.w0 !! j = Some r →
        ∃ e, r = Raise e)
   ∧ SFltb (Double.fl 3 0) np_inf = true)
  ∧ _tune 1%positive (PInt 12) "smape" (Some 3) Double.w0
    = (Ok (), tuned_world 12 (Double.as_dict Double.c30) Double.w0).
Proof.
  intros E.
  assert (∀ j r, j ≠ 30 →
    candidate_outcomes 1%positive 12 Double.first_forecast (Some 3) Double.w0 !! j = Some r →
    ∃ e, r = Raise e) as Hothers.
  { assert (candidate_outcomes 1%positive 12 Double.first_forecast (Some 3) Double.w0
            = <[30 := Ok (Double.fl 3 0)]> (replicate 48 (Raise (ValueError "fit")))) as ->
      by (vm_compute; reflexivity).
    intros j r Hne Hj. rewrite list_lookup_insert_ne in Hj by done.
    apply lookup_replicate in Hj as [-> _]. eauto. }
  split.
  - repeat split; try (vm_compute; reflexivity). exact Hothers.
  - apply (sole_success_below_inf_selected 1%positive (PInt 12) "smape" (Some 3)
             Double.w0 12 Double.first_forecast 30 (Double.as_dict Double.c30)
             (Double.fl 3 0));
      try (vm_compute; reflexivity). exact Hothers.
Defined.

(** C4. If every candidate fails (every recorded score is [+inf]), [_tune]
    returns normally: it selects the first permutation of the cartesian
    product, copies it into [params] and sets [tuned]; nothing is raised. *)
Theorem all_candidates_fail_first_selected `{Externals}
    (y : loc) (period : period_arg) (metric : string) (val_size : option nat)
    (w : world) (p : Z) (metric_fun : series → series → res float) :
  resolve_period period = Ok p →
  get_metric metric = Ok metric_fun →
  (∀ j r, candidate_outcomes y p metric_fun val_size w !! j = Some r → ∃ e, r = Raise e) →
  recorded_scores y p metric_fun val_size w = replicate 48 np_inf
  ∧ ∃ first,
      head params_permutations = Some first
      ∧ first = {[ "trend" := VStr "add"; "seasonal" := VStr "add";
                   "damped" := VBool true; "use_boxcox" := VBool true;
                   "remove_bias" := VBool true ]}
      ∧ _tune y period metric val_size w = (Ok (), tuned_world p first w)
      ∧ self_params (self (tuned_world p first w))
        = <["tuned" := VBool true]> (first ∪ self_params (self w)).
Proof.
  intros Hp Hm Hall.
  assert (Hscores : recorded_scores y p metric_fun val_size w = replicate 48 np_inf).
  { apply list_eq_same_length with 48.
    - by rewrite length_replicate.
    - apply recorded_scores_length.
    - intros j x x' Hj Hx Hx'. rewrite recorded_scores_lookup in Hx.
      destruct (candidate_outcomes y p metric_fun val_size w !! j) as [r|] eqn:Hr; [|done].
      destruct (Hall j r Hr) as [e ->]. cbn in Hx.
      apply lookup_replicate in Hx' as [-> _]. congruence. }
  split; [done|].
  assert (Hi : nanargmin (recorded_scores y p metric_fun val_size w) = Ok 0).
  { rewrite Hscores. vm_compute. reflexivity. }
  destruct (_tune_Ok y period metric val_size w p metric_fun 0 Hp Hm Hi)
    as (first & Hfirst & Hrun).
  exists first. split; [by rewrite head_lookup|].
  split; [|done].
  vm_compute in Hfirst. injection Hfirst as <-. vm_compute. reflexivity.
Qed.

Lemma all_candidates_fail_first_selected_witness :
  let E : Externals := Double.all_fail in
  (resolve_period (PInt 12) = Ok 12%Z
   ∧ get_metric "smape" = Ok Double.first_forecast
   ∧ (∀ j r,
        candidate_outcomes 1%positive 12 Double.first_forecast (Some 3) Double.w0 !! j = Some r →
        ∃ e, r = Raise e))
  ∧ recorded_scores 1%positive 12 Double.first_forecast (Some 3) Double.w0
    = replicate 48 np_inf
  ∧ ∃ first,
      head params_permutations = Some first
      ∧ first = {[ "trend" := VStr "add"; "seasonal" := VStr "add";
                   "damped" := VBool true; "use_boxcox" := VBool true;
                   "remove_bias" := VBool true ]}
      ∧ _tune 1%positive (PInt 12) "smape" (Some 3) Double.w0
        = (Ok (), tuned_world 12 first Double.w0)
      ∧ self_params (self (tuned_world 12 first Double.w0))
        = <["tuned" := VBool true]> (first ∪ self_params (self Double.w0)).
Proof.
  intros E.
  assert (∀ j r,
    candidate_outcomes 1%positive 12 Double.first_forecast (Some 3) Double.w0 !! j = Some r →
    ∃ e, r = Raise e) as Hall.
  { assert (candidate_outcomes 1%positive 12 Double.first_forecast (Some 3) Double.w0
            = replicate 48 (Raise (ValueError "fit"))) as ->
      by (vm_compute; reflexivity).
    intros j r Hj. apply lookup_replicate in Hj as [-> _]. eauto. }
  split.
  - repeat split; try (vm_compute; reflexivity). exact Hall.
  - apply (all_candidates_fail_first_selected 1%positive (PInt 12) "smape" (Some 3)
             Double.w0 12 Double.first_forecast);
      try (vm_compute; reflexivity). exact Hall.
Defined.

(** ** The keys of the grid and of [params] *)

Lemma grid_keys_eq :
  grid_keys = {[ "trend"; "seasonal"; "damped"; "use_boxcox"; "remove_bias" ]}.
Proof. vm_compute. reflexivity. Qed.

Lemma tuned_not_grid_key : "tuned" ∉ grid_keys.
Proof. apply (bool_decide_unpack _). vm_compute. exact I. Qed.

Lemma permutation_dom (i : nat) (best : dict) :
  params_permutations !! i = Some best → dom best = grid_keys.
Proof.
  assert (Forall (λ d : dict, dom d = grid_keys) params_permutations) as Hall.
  { apply (bool_decide_unpack _). vm_compute. exact I. }
  intros Hi. by eapply (proj1 (Forall_lookup _ _) Hall).
Qed.

(** C5, as stated, fails: after [_tune] the keys of [params] are not exactly
    the keys of the grid, since [params] also holds the key "tuned". *)
Lemma tuned_params_keys_not_grid_keys :
  let E : Externals := Double.all_half in
  Double.run_tune E = (Ok (), tuned_world 12 (Double.as_dict Double.c0) Double.w0)
  ∧ dom (self_params (self (tuned_world 12 (Double.as_dict Double.c0) Double.w0)))
    ≠ grid_keys.
Proof.
  intros E. split; [vm_compute; reflexivity|].
  intros Heq. apply tuned_not_grid_key. rewrite <- Heq.
  apply elem_of_dom. eexists. vm_compute. reflexivity.
Qed.

(** C5, amended. Whenever [_tune] returns, the keys of [params] are the
    keys of the grid (trend, seasonal, damped, use_boxcox, remove_bias)
    together with "tuned" and the keys [params] held before the call; every
    grid key holds the value of the selected combination, whose keys are
    exactly the grid's keys; and "tuned" is True.  [_tune] sets "tuned"
    only after the grid has been scored and the best combination copied:
    a call that returns has scored all 48 combinations and selected among
    them, and a call that raises leaves [params], and so "tuned", exactly
    as it was. *)
Theorem tune_params_keys `{Externals}
    (y : loc) (period : period_arg) (metric : string) (val_size : option nat)
    (w : world) :
  grid_keys = {[ "trend"; "seasonal"; "damped"; "use_boxcox"; "remove_bias" ]}
  ∧ (∀ w', _tune y period metric val_size w = (Ok (), w') →
       dom (self_params (self w')) = grid_keys ∪ {["tuned"]} ∪ dom (self_params (self w))
       ∧ self_params (self w') !! "tuned" = Some (VBool true)
       ∧ ∃ p metric_fun i best,
           resolve_period period = Ok p
           ∧ get_metric metric = Ok metric_fun
           ∧ length (recorded_scores y p metric_fun val_size w) = 48
           ∧ nanargmin (recorded_scores y p metric_fun val_size w) = Ok i
           ∧ params_permutations !! i = Some best
           ∧ dom best = grid_keys
           ∧ ∀ k, k ∈ grid_keys → self_params (self w') !! k = best !! k)
  ∧ (∀ e w', _tune y period metric val_size w = (Raise e, w') →
       self_params (self w') = self_params (self w)).
Proof.
  split; [apply grid_keys_eq|]. split.
  - intros w' Hrun.
    apply _tune_Ok_inv in Hrun as (p & metric_fun & i & best & Hp & Hm & Hi & Hbest & ->).
    pose proof (permutation_dom _ _ Hbest) as Hdom.
    cbn [tuned_world self self_params]. unfold update.
    split.
    { rewrite dom_insert_L, dom_union_L, Hdom, (assoc_L (∪)).
      by rewrite (comm_L (∪) {["tuned"]} grid_keys). }
    split; [apply lookup_insert_eq|].
    exists p, metric_fun, i, best.
    split_and!; [done | done | apply recorded_scores_length | done | done | done |].
    intros k Hk. rewrite lookup_insert_ne.
    2: { intros <-. by apply tuned_not_grid_key. }
    rewrite <- Hdom in Hk. apply elem_of_dom in Hk as [v Hv].
    rewrite Hv. by apply lookup_union_Some_l.
  - intros e w' Hrun. by apply tune_raise_world in Hrun as [->|[p ->]].
Qed.

Lemma tune_params_keys_witness :
  let E : Externals := Double.prefers Double.c30 in
  Double.run_tune E = (Ok (), tuned_world 12 (Double.as_dict Double.c30) Double.w0)
  ∧ _tune 1%positive (PInt 12) "no such metric" (Some 3) Double.w0
    = (Raise (KeyError "no such metric"), with_period 12 Double.w0)
  ∧ grid_keys = {[ "trend"; "seasonal"; "damped"; "use_boxcox"; "remove_bias" ]}
  ∧ dom (self_params (self (tuned_world 12 (Double.as_dict Double.c30) Double.w0)))
    = grid_keys ∪ {["tuned"]} ∪ dom (self_params (self Double.w0))
  ∧ self_params (self (tuned_world 12 (Double.as_dict Double.c30) Double.w0)) !! "tuned"
    = Some (VBool true)
  ∧ (∃ p metric_fun i best,
      resolve_period (PInt 12) = Ok p
      ∧ get_metric "smape" = Ok metric_fun
      ∧ length (recorded_scores 1%positive p metric_fun (Some 3) Double.w0) = 48
      ∧ nanargmin (recorded_scores 1%positive p metric_fun (Some 3) Double.w0) = Ok i
      ∧ params_permutations !! i = Some best
      ∧ dom best = grid_keys
      ∧ ∀ k, k ∈ grid_keys →
          self_params (self (tuned_world 12 (Double.as_dict Double.c30) Double.w0)) !! k
          = best !! k)
  ∧ self_params (self (with_period 12 Double.w0)) = self_params (self Double.w0).
Proof.
  intros E.
  assert (Double.run_tune E
          = (Ok (), tuned_world 12 (Double.as_dict Double.c30) Double.w0)) as Hrun
    by (vm_compute; reflexivity).
  assert (_tune 1%positive (PInt 12) "no such metric" (Some 3) Double.w0
          = (Raise (KeyError "no such metric"), with_period 12 Double.w0)) as Hraise
    by (vm_compute; reflexivity).
  destruct (tune_params_keys 1%positive (PInt 12) "smape" (Some 3) Double.w0)
    as (Hkeys & Hok & _).
  destruct (Hok _ Hrun) as (Hdom & Htuned & Hsel).
  destruct (tune_params_keys 1%positive (PInt 12) "no such metric" (Some 3) Double.w0)
    as (_ & _ & Hfail).
  split_and!; [exact Hrun | exact Hraise | exact Hkeys | exact Hdom | exact Htuned
              | exact Hsel | exact (Hfail _ _ Hraise)].
Defined.

(** ** The validation split *)

Lemma train_val_split_app (ys : series) (val_size : nat) :
  (train_val_split ys val_size).1 ++ (train_val_split ys val_size).2 = ys.
Proof. apply take_drop. Qed.

Lemma train_val_split_val_length (ys : series) (val_size : nat) :
  val_size ≤ length ys → length (train_val_split ys val_size).2 = val_size.
Proof. intros Hle. cbn. rewrite length_drop. lia. Qed.

(** *** [int(n * .1)] in binary64 arithmetic

    The product rounds the exact product of the two mantissas to 53 bits,
    to nearest and ties to even; the lemmas follow the definitions of the
    Standard Library's [SpecFloat]. *)

Section Binary64.
Local Open Scope Z_scope.

Lemma digits2_pos_spec (p : positive) :
  2 ^ (Z.pos (digits2_pos p) - 1) ≤ Z.pos p < 2 ^ Z.pos (digits2_pos p).
Proof.
  induction p as [p IH|p IH|]; cbn [digits2_pos].
  - rewrite Pos2Z.inj_succ. replace (Z.succ (Z.pos (digits2_pos p)) - 1)
      with (Z.succ (Z.pos (digits2_pos p) - 1)) by lia.
    rewrite !Z.pow_succ_r by lia. lia.
  - rewrite Pos2Z.inj_succ. replace (Z.succ (Z.pos (digits2_pos p)) - 1)
      with (Z.succ (Z.pos (digits2_pos p) - 1)) by lia.
    rewrite !Z.pow_succ_r by lia. lia.
  - cbn. lia.
Qed.

Lemma digits2_pos_unique (p : positive) (k : Z) :
  2 ^ (k - 1) ≤ Z.pos p < 2 ^ k → Z.pos (digits2_pos p) = k.
Proof.
  intros [Hlo Hhi]. pose proof (digits2_pos_spec p) as [Hlo' Hhi'].
  assert (0 < k).
  { destruct (Z_lt_le_dec 0 k); [done|].
    assert (2 ^ k ≤ 2 ^ 0) by (apply Z.pow_le_mono_r; lia). cbn in *. lia. }
  assert (k - 1 < Z.pos (digits2_pos p)).
  { apply (Z.pow_lt_mono_r_iff 2); lia. }
  assert (Z.pos (digits2_pos p) - 1 < k).
  { apply (Z.pow_lt_mono_r_iff 2); lia. }
  lia.
Qed.

Lemma iter_xO (m k : positive) : Z.pos (Pos.iter xO m k) = Z.pos m * 2 ^ Z.pos k.
Proof.
  induction k as [|k IH] using Pos.peano_ind.
  - cbn. lia.
  - rewrite Pos.iter_succ, Pos2Z.inj_succ, Z.pow_succ_r by lia.
    rewrite Pos2Z.inj_xO, IH. lia.
Qed.

Lemma iter_pos_nat {A} (f : A → A) (p : positive) (x : A) :
  SpecFloat.iter_pos f p x = Nat.iter (Pos.to_nat p) f x.
Proof.
  revert x. induction p as [p IH|p IH|]; intros x; cbn [SpecFloat.iter_pos].
  - rewrite !IH, Pos2Nat.inj_xI.
    replace (S (2 * Pos.to_nat p))%nat
      with (Pos.to_nat p + (Pos.to_nat p + 1))%nat by lia.
    by rewrite !Nat.iter_add.
  - rewrite !IH, Pos2Nat.inj_xO.
    replace (2 * Pos.to_nat p)%nat with (Pos.to_nat p + Pos.to_nat p)%nat by lia.
    by rewrite Nat.iter_add.
  - done.
Qed.

Lemma shr_1_nonneg (m : Z) (r s : bool) :
  0 ≤ m →
  shr_1 {| shr_m := m; shr_r := r; shr_s := s |}
  = {| shr_m := m / 2; shr_r := Z.odd m; shr_s := r || s |}.
Proof.
  intros Hm. destruct m as [|[p|p|]|]; try lia; cbn [shr_1 Z.odd]; f_equal.
  - apply Z.div_unique with 1; lia.
  - apply Z.div_unique with 0; lia.
Qed.

Lemma odd_mod2 (x : Z) : x mod 2 = if Z.odd x then 1 else 0.
Proof. apply Zmod_odd. Qed.

Lemma iter_shr_1 (k : nat) (m : Z) :
  0 ≤ m →
  Nat.iter (S k) shr_1 {| shr_m := m; shr_r := false; shr_s := false |}
  = {| shr_m := m / 2 ^ Z.of_nat (S k);
       shr_r := Z.odd (m / 2 ^ Z.of_nat k);
       shr_s := negb (m mod 2 ^ Z.of_nat k =? 0) |}.
Proof.
  intros Hm. induction k as [|k IH].
  - cbn [Nat.iter]. rewrite shr_1_nonneg by done. cbn [Z.of_nat Z.pow Z.pow_pos Pos.iter Pos.mul].
    change (2 ^ 0) with 1. rewrite Z.div_1_r, Z.mod_1_r. done.
  - rewrite Nat.iter_succ, IH.
    assert (0 < 2 ^ Z.of_nat k) as Hpow by (apply Z.pow_pos_nonneg; lia).
    assert (0 < 2 ^ Z.of_nat (S k)) as Hpow' by (apply Z.pow_pos_nonneg; lia).
    rewrite shr_1_nonneg by (apply Z.div_pos; lia).
    assert (2 ^ Z.of_nat (S (S k)) = 2 ^ Z.of_nat (S k) * 2) as ->.
    { rewrite (Nat2Z.inj_succ (S k)), Z.pow_succ_r by lia. lia. }
    assert (2 ^ Z.of_nat (S k) = 2 ^ Z.of_nat k * 2) as Hsk.
    { rewrite (Nat2Z.inj_succ k), Z.pow_succ_r by lia. lia. }
    f_equal.
    + rewrite Z.div_div by lia. done.
    + rewrite Hsk, Z.rem_mul_r by lia.
      pose proof (Z.mod_pos_bound m (2 ^ Z.of_nat k) Hpow) as Ha.
      pose proof (odd_mod2 (m / 2 ^ Z.of_nat k)) as Hb.
      destruct (Z.odd (m / 2 ^ Z.of_nat k)); rewrite Hb; cbn [orb].
      * symmetry. apply negb_true_iff, Z.eqb_neq. lia.
      * f_equal. f_equal. lia.
Qed.

Lemma shr_spec (m e : Z) (n : positive) :
  0 ≤ m →
  shr {| shr_m := m; shr_r := false; shr_s := false |} e (Z.pos n)
  = ({| shr_m := m / 2 ^ Z.pos n;
        shr_r := Z.odd (m / 2 ^ (Z.pos n - 1));
        shr_s := negb (m mod 2 ^ (Z.pos n - 1) =? 0) |}, e + Z.pos n).
Proof.
  intros Hm. unfold shr. rewrite iter_pos_nat.
  destruct (Pos2Nat.is_succ n) as [k Hk]. rewrite Hk, iter_shr_1 by done.
  assert (Z.pos n = Z.of_nat (S k)) as Hn by lia.
  rewrite Hn. replace (Z.of_nat (S k) - 1) with (Z.of_nat k) by lia. done.
Qed.


Lemma round_shr (m : Z) (n : positive) :
  0 ≤ m →
  round_nearest_even (m / 2 ^ Z.pos n)
    (loc_of_shr_record
       {| shr_m := m / 2 ^ Z.pos n;
          shr_r := Z.odd (m / 2 ^ (Z.pos n - 1));
          shr_s := negb (m mod 2 ^ (Z.pos n - 1) =? 0) |})
  = rne m (Z.pos n).
Proof.
  intros Hm. unfold rne.
  assert (0 < 2 ^ (Z.pos n - 1)) as Hpow by (apply Z.pow_pos_nonneg; lia).
  assert (2 ^ Z.pos n = 2 ^ (Z.pos n - 1) * 2) as Hn.
  { replace (Z.pos n) with (Z.succ (Z.pos n - 1)) at 1 by lia.
    rewrite Z.pow_succ_r by lia. lia. }
  set (q := m / 2 ^ Z.pos n). rewrite Hn, Z.rem_mul_r by lia.
  pose proof (Z.mod_pos_bound m (2 ^ (Z.pos n - 1)) Hpow) as Ha.
  pose proof (odd_mod2 (m / 2 ^ (Z.pos n - 1))) as Hb.
  destruct (Z.odd (m / 2 ^ (Z.pos n - 1))); rewrite Hb.
  - destruct (Z.eqb_spec (m mod 2 ^ (Z.pos n - 1)) 0) as [E|E]; cbn [negb loc_of_shr_record round_nearest_even].
    + rewrite E. destruct (Z.ltb_spec (0 + 2 ^ (Z.pos n - 1) * 1) (2 ^ (Z.pos n - 1))); [lia|].
      destruct (Z.eqb_spec (0 + 2 ^ (Z.pos n - 1) * 1) (2 ^ (Z.pos n - 1))); [done|lia].
    + destruct (Z.ltb_spec (m mod 2 ^ (Z.pos n - 1) + 2 ^ (Z.pos n - 1) * 1) (2 ^ (Z.pos n - 1))); [lia|].
      destruct (Z.eqb_spec (m mod 2 ^ (Z.pos n - 1) + 2 ^ (Z.pos n - 1) * 1) (2 ^ (Z.pos n - 1))); [lia|done].
  - destruct (Z.ltb_spec (m mod 2 ^ (Z.pos n - 1) + 2 ^ (Z.pos n - 1) * 0) (2 ^ (Z.pos n - 1))); [|lia].
    by destruct (negb _).
Qed.

Lemma rne_bounds (m n : Z) :
  0 ≤ m → 0 < n →
  m / 2 ^ n ≤ rne m n ≤ m / 2 ^ n + 1.
Proof.
  intros Hm Hn. unfold rne. repeat case_match; lia.
Qed.

Lemma binary_round_aux_shift (mx : positive) (ex : Z) (s : positive) :
  Z.pos (digits2_pos mx) - 53 = Z.pos s →
  -1074 ≤ ex + Z.pos s →
  ex + Z.pos s + 1 ≤ 971 →
  binary_round_aux 53 1024 false (Z.pos mx) ex loc_Exact
  = if rne (Z.pos mx) (Z.pos s) <? 2 ^ 53
    then S754_finite false (Z.to_pos (rne (Z.pos mx) (Z.pos s))) (ex + Z.pos s)
    else S754_finite false (Z.to_pos (rne (Z.pos mx) (Z.pos s) / 2)) (ex + Z.pos s + 1).
Proof.
  intros Hs Hlo Hhi.
  pose proof (digits2_pos_spec mx) as [Hd1 Hd2].
  assert (0 < 2 ^ Z.pos s) as Hpow by (apply Z.pow_pos_nonneg; lia).
  assert (2 ^ 52 ≤ Z.pos mx / 2 ^ Z.pos s < 2 ^ 53) as Hq.
  { replace (Z.pos (digits2_pos mx) - 1) with (52 + Z.pos s) in Hd1 by lia.
    replace (Z.pos (digits2_pos mx)) with (53 + Z.pos s) in Hd2 by lia.
    rewrite Z.pow_add_r in Hd1, Hd2 by lia. split.
    - apply Z.div_le_lower_bound; lia.
    - apply Z.div_lt_upper_bound; lia. }
  pose proof (rne_bounds (Z.pos mx) (Z.pos s) ltac:(lia) ltac:(lia)) as Hr.
  set (m1 := rne (Z.pos mx) (Z.pos s)) in *.
  unfold binary_round_aux, shr_fexp. cbn [shr_record_of_loc].
  assert (fexp 53 1024 (Zdigits2 (Z.pos mx) + ex) - ex = Z.pos s) as ->.
  { unfold fexp, emin. cbn [Zdigits2]. lia. }
  rewrite shr_spec by lia. cbn [shr_m].
  rewrite round_shr by lia. fold m1.
  assert (2 ^ 52 ≤ m1 ≤ 2 ^ 53) as Hm1 by lia.
  destruct m1 as [|p1|p1] eqn:Em1; [lia| |lia].
  destruct (Z.ltb_spec (Z.pos p1) (2 ^ 53)) as [Hlt|Hge].
  - assert (Z.pos (digits2_pos p1) = 53) as Hd by (apply digits2_pos_unique; lia).
    assert (fexp 53 1024 (Zdigits2 (Z.pos p1) + (ex + Z.pos s)) - (ex + Z.pos s) = 0) as ->.
    { unfold fexp, emin. cbn [Zdigits2]. lia. }
    cbn [shr shr_m].
    destruct (Z.leb_spec (ex + Z.pos s) (1024 - 53)); [done|lia].
  - assert (Z.pos p1 = 2 ^ 53) as Hp1 by lia.
    assert (Z.pos (digits2_pos p1) = 54) as Hd by (apply digits2_pos_unique; lia).
    assert (fexp 53 1024 (Zdigits2 (Z.pos p1) + (ex + Z.pos s)) - (ex + Z.pos s) = 1) as ->.
    { unfold fexp, emin. cbn [Zdigits2]. lia. }
    rewrite shr_spec by lia. cbn [shr_m].
    change (2 ^ 1) with 2.
    assert (Z.pos p1 / 2 = 2 ^ 52) as Hhalf.
    { rewrite Hp1. reflexivity. }
    rewrite Hhalf. cbn [Z.pow Z.pow_pos Pos.iter Pos.mul Z.mul].
    change (2 ^ 52) with 4503599627370496.
    destruct (Z.leb_spec (ex + Z.pos s + 1) (1024 - 53)); [done|lia].
Qed.


Lemma binary_round_aux_exact (mx : positive) (ex : Z) :
  Z.pos (digits2_pos mx) = 53 →
  -1074 ≤ ex ≤ 971 →
  binary_round_aux 53 1024 false (Z.pos mx) ex loc_Exact = S754_finite false mx ex.
Proof.
  intros Hd He. unfold binary_round_aux, shr_fexp. cbn [shr_record_of_loc].
  assert (fexp 53 1024 (Zdigits2 (Z.pos mx) + ex) - ex = 0) as ->.
  { unfold fexp, emin. cbn [Zdigits2]. lia. }
  cbn [shr shr_m loc_of_shr_record round_nearest_even shr_record_of_loc].
  assert (fexp 53 1024 (Zdigits2 (Z.pos mx) + ex) - ex = 0) as ->.
  { unfold fexp, emin. cbn [Zdigits2]. lia. }
  cbn [shr shr_m].
  destruct (Z.leb_spec ex (1024 - 53)); [done|lia].
Qed.

Lemma float_of_len_pos (pn : positive) :
  Z.pos (digits2_pos pn) ≤ 53 →
  float_of_len (Z.pos pn)
  = S754_finite false (Z.to_pos (Z.pos pn * 2 ^ (53 - Z.pos (digits2_pos pn))))
      (Z.pos (digits2_pos pn) - 53).
Proof.
  intros Hd. pose proof (digits2_pos_spec pn) as [Hlo Hhi].
  unfold float_of_len, binary_normalize, binary_round.
  assert (fexp 53 1024 (Z.pos (digits2_pos pn) + 0) = Z.pos (digits2_pos pn) - 53) as ->.
  { unfold fexp, emin. lia. }
  unfold shl_align.
  destruct (Z.pos (digits2_pos pn) - 53 - 0) as [|k|k] eqn:Ek; [|lia|].
  - assert (Z.pos (digits2_pos pn) = 53) as E by lia.
    rewrite binary_round_aux_exact by lia. rewrite E. cbn [Z.sub Z.opp Z.add Z.pos_sub].
    change (2 ^ 0) with 1. rewrite Z.mul_1_r. done.
  - assert (53 - Z.pos (digits2_pos pn) = Z.pos k) as Ek' by lia.
    rewrite Ek'.
    assert (Z.pos (Pos.iter xO pn k) = Z.pos pn * 2 ^ Z.pos k) as Hmz by apply iter_xO.
    rewrite <- Hmz. rewrite Pos2Z.id.
    apply binary_round_aux_exact; [|lia].
    apply digits2_pos_unique. rewrite Hmz.
    assert (2 ^ (53 - 1) = 2 ^ (Z.pos (digits2_pos pn) - 1) * 2 ^ Z.pos k) as ->.
    { rewrite <- Z.pow_add_r by lia. f_equal. lia. }
    assert (2 ^ 53 = 2 ^ Z.pos (digits2_pos pn) * 2 ^ Z.pos k) as ->.
    { rewrite <- Z.pow_add_r by lia. f_equal. lia. }
    assert (0 < 2 ^ Z.pos k) by (apply Z.pow_pos_nonneg; lia).
    nia.
Qed.

Lemma rne_cases (m n : Z) :
  0 ≤ m → 0 < n →
  ∃ q rem,
    m = 2 ^ n * q + rem ∧ 0 ≤ rem < 2 ^ n
    ∧ (rne m n = q ∧ 2 * rem ≤ 2 ^ n ∨ rne m n = q + 1 ∧ 2 ^ n ≤ 2 * rem).
Proof.
  intros Hm Hn. exists (m / 2 ^ n), (m mod 2 ^ n).
  assert (0 < 2 ^ n) as Hpow by (apply Z.pow_pos_nonneg; lia).
  assert (2 ^ n = 2 * 2 ^ (n - 1)) as Hhalf.
  { replace n with (Z.succ (n - 1)) at 1 by lia. rewrite Z.pow_succ_r by lia. done. }
  split; [apply Z.div_mod; lia|]. split; [apply Z.mod_pos_bound; lia|].
  unfold rne. repeat case_match; lia.
Qed.

Lemma int_of_rounded (m1 e : Z) :
  2 ^ 52 ≤ m1 → e + 1 < 0 →
  int_of_float
    (if m1 <? 2 ^ 53 then S754_finite false (Z.to_pos m1) e
     else S754_finite false (Z.to_pos (m1 / 2)) (e + 1))
  = m1 / 2 ^ (- e).
Proof.
  intros Hm He. change (2 ^ 52) with 4503599627370496 in Hm.
  destruct (m1 <? 2 ^ 53); cbn [int_of_float].
  - destruct (Z.leb_spec 0 e); [lia|]. by rewrite Z2Pos.id by lia.
  - destruct (Z.leb_spec 0 (e + 1)); [lia|].
    assert (0 < m1 / 2) by (apply Z.div_str_pos; lia).
    rewrite Z2Pos.id by lia. rewrite Z.div_div by (try apply Z.pow_pos_nonneg; lia).
    f_equal. replace (- e) with (Z.succ (- (e + 1))) by lia.
    by rewrite Z.pow_succ_r by lia.
Qed.

Lemma double_val_size_small (n : Z) :
  0 ≤ n < 2 ^ 52 → double_val_size n = n / 10.
Proof.
  intros [Hn0 Hn]. destruct n as [|pn|pn]; [reflexivity| |lia].
  pose proof (digits2_pos_spec pn) as [Hlo Hhi].
  set (d := Z.pos (digits2_pos pn)) in *.
  assert (0 < d) as Hd0 by (unfold d; lia).
  assert (d ≤ 52) as Hd.
  { assert (d - 1 < 52); [|lia]. apply (Z.pow_lt_mono_r_iff 2); lia. }
  unfold double_val_size. rewrite float_of_len_pos by (fold d; lia). fold d.
  set (c := 2 ^ (53 - d)).
  assert (2 ≤ c) as Hc.
  { unfold c. change 2 with (2 ^ 1) at 1. apply Z.pow_le_mono_r; lia. }
  assert (2 ^ 52 ≤ Z.pos pn * c < 2 ^ 53) as HN.
  { assert (2 ^ 52 = 2 ^ (d - 1) * c) as ->.
    { unfold c. rewrite <- Z.pow_add_r by lia. f_equal. lia. }
    assert (2 ^ 53 = 2 ^ d * c) as ->.
    { unfold c. rewrite <- Z.pow_add_r by lia. f_equal. lia. }
    nia. }
  assert (0 < Z.pos pn * c) as HNpos by lia.
  destruct (Z.pos pn * c) as [|Np|Np] eqn:EN; [lia| |lia].
  cbn [Z.to_pos]. unfold SFmul, tenth. cbn [xorb].
  set (k0 := Z.pos pn / 10).
  assert (∃ A B, Z.pos Np = 10 * A + B ∧ 0 ≤ B ≤ 9 * c ∧ A = c * k0) as (A & B & HAB & HB & HA).
  { exists (c * k0), (c * (Z.pos pn mod 10)).
    pose proof (Z.div_mod (Z.pos pn) 10 ltac:(lia)) as Hdm. fold k0 in Hdm.
    pose proof (Z.mod_pos_bound (Z.pos pn) 10 ltac:(lia)) as Hmb.
    split_and!; [|nia|nia|done]. rewrite <- EN. rewrite Hdm at 1. lia. }
  assert (∀ m b, 0 < b → b * k0 ≤ m < b * k0 + b → m / b = k0) as Hdiv.
  { intros m b Hb Hm. symmetry. apply Z.div_unique with (m - b * k0); lia. }
  assert (2 ^ 104 ≤ Z.pos (Np * 7205759403792794) < 2 ^ 106) as HP.
  { rewrite Pos2Z.inj_mul. change (2 ^ 52) with 4503599627370496 in HN.
    change (2 ^ 53) with 9007199254740992 in HN.
    change (2 ^ 104) with 20282409603651670423947251286016.
    change (2 ^ 106) with 81129638414606681695789005144064. lia. }
  destruct (Z_lt_le_dec (Z.pos (Np * 7205759403792794)) (2 ^ 105)) as [HD|HD].
  - rewrite (binary_round_aux_shift _ _ 52);
      [|rewrite (digits2_pos_unique _ 105); [done|lia] | lia | lia].
    destruct (rne_cases (Z.pos (Np * 7205759403792794)) 52 ltac:(lia) ltac:(lia))
      as (q & rem & HPq & Hrem & Hr).
    rewrite Pos2Z.inj_mul in HPq, HP, HD.
    change (2 ^ 52) with 4503599627370496 in *.
    change (2 ^ 53) with 9007199254740992 in *.
    change (2 ^ 104) with 20282409603651670423947251286016 in *.
    change (2 ^ 105) with 40564819207303340847894502572032 in *.
    rewrite int_of_rounded by (change (2 ^ 52) with 4503599627370496; lia).
    assert (2 ^ (- (d - 53 + -56 + 52)) = 16 * c) as ->.
    { unfold c. change 16 with (2 ^ 4). rewrite <- Z.pow_add_r by lia. f_equal. lia. }
    apply Hdiv; [lia|]. replace (16 * c * k0) with (16 * A) by (rewrite HA; lia).
    destruct Hr as [[-> Hr]|[-> Hr]]; lia.
  - rewrite (binary_round_aux_shift _ _ 53);
      [|rewrite (digits2_pos_unique _ 106); [done|lia] | lia | lia].
    destruct (rne_cases (Z.pos (Np * 7205759403792794)) 53 ltac:(lia) ltac:(lia))
      as (q & rem & HPq & Hrem & Hr).
    rewrite Pos2Z.inj_mul in HPq, HP, HD.
    change (2 ^ 52) with 4503599627370496 in *.
    change (2 ^ 53) with 9007199254740992 in *.
    change (2 ^ 105) with 40564819207303340847894502572032 in *.
    change (2 ^ 106) with 81129638414606681695789005144064 in *.
    rewrite int_of_rounded by (change (2 ^ 52) with 4503599627370496; lia).
    assert (2 ^ (- (d - 53 + -56 + 53)) = 8 * c) as ->.
    { unfold c. change 8 with (2 ^ 3). rewrite <- Z.pow_add_r by lia. f_equal. lia. }
    apply Hdiv; [lia|]. replace (8 * c * k0) with (8 * A) by (rewrite HA; lia).
    destruct Hr as [[-> Hr]|[-> Hr]]; lia.
Qed.

End Binary64.

(** Below 2^52 observations, [int(len(y) * .1)] is the length divided by
    ten, rounded down. *)
Lemma default_val_size_small (ys : series) :
  (Z.of_nat (length ys) < 2 ^ 52)%Z → default_val_size ys = length ys / 10.
Proof.
  intros Hlen. unfold default_val_size.
  rewrite double_val_size_small by lia.
  change 10%Z with (Z.of_nat 10). by rewrite <- Nat2Z.inj_div, Nat2Z.id.
Qed.

(** C6, as stated, fails: for a series of 8000000000000009 observations the
    validation size [int(len(y) * .1)] is 800000000000001, one more than
    the tenth of the length rounded down. *)
Lemma long_series_default_val_size :
  Z.of_nat (length Double.long_series) = 8000000000000009%Z
  ∧ Z.of_nat (resolve_val_size Double.long_series None) = 800000000000001%Z
  ∧ (Z.of_nat (length Double.long_series) / 10 = 800000000000000)%Z
  ∧ Z.of_nat (resolve_val_size Double.long_series None)
    ≠ (Z.of_nat (length Double.long_series) / 10)%Z.
Proof.
  assert (Z.of_nat (length Double.long_series) = 8000000000000009%Z) as Hlen.
  { unfold Double.long_series. rewrite length_replicate. apply Z2Nat.id. lia. }
  assert (Z.of_nat (resolve_val_size Double.long_series None) = 800000000000001%Z)
    as Hval.
  { unfold resolve_val_size, default_val_size. rewrite Hlen.
    assert (double_val_size 8000000000000009 = 800000000000001%Z) as ->
      by (vm_compute; reflexivity).
    apply Z2Nat.id. lia. }
  rewrite Hval, Hlen.
  split_and!; [reflexivity | reflexivity | reflexivity |].
  intros Heq. vm_compute in Heq. discriminate Heq.
Qed.

(** C6, amended. For every series [y] of fewer than 2^52 observations, when
    no validation size is supplied, [_tune] works with a validation window
    of [len(y)] divided by ten, rounded down: the series is split into a
    leading training portion and a trailing validation portion of exactly
    that size, and these two portions are what [_tune] fits, forecasts and
    scores every candidate on. *)
Theorem default_validation_window `{Externals}
    (y : loc) (period : period_arg) (metric : string) (w : world)
    (p : Z) (metric_fun : series → series → res float) :
  let ys := default [] (heap w !! y) in
  let v := length ys / 10 in
  let y_train := take (length ys - v) ys in
  let y_val := drop (length ys - v) ys in
  (Z.of_nat (length ys) < 2 ^ 52)%Z →
  resolve_period period = Ok p →
  get_metric metric = Ok metric_fun →
  resolve_val_size ys None = v
  ∧ train_val_split ys (resolve_val_size ys None) = (y_train, y_val)
  ∧ y_train ++ y_val = ys
  ∧ length y_val = v
  ∧ length y_train = length ys - v
  ∧ _tune y period metric None w
    = match nanargmin
              ((λ permutation,
                  recorded (candidate_score y_train y_val metric_fun permutation
                              (with_period p w)).1)
                 <$> params_permutations) with
      | Ok i =>
          match params_permutations !! i with
          | Some best => (Ok (), tuned_world p best w)
          | None => (Raise (IndexError "list index out of range"), with_period p w)
          end
      | Raise e => (Raise e, with_period p w)
      end.
Proof.
  intros ys v y_train y_val Hlen Hp Hm.
  assert (resolve_val_size ys None = v) as Hv by (by apply default_val_size_small).
  assert (v ≤ length ys) as Hle by (apply Nat.Div0.div_le_upper_bound; lia).
  split; [done|]. rewrite Hv. split; [done|].
  split; [apply take_drop|].
  split; [unfold y_val; rewrite length_drop; lia|].
  split; [unfold y_train; rewrite length_take; lia|].
  rewrite (_tune_run _ _ _ _ _ _ _ Hp Hm).
  unfold recorded_scores, candidate_outcomes. fold ys. rewrite Hv.
  cbn [train_val_split]. fold y_train y_val.
  by rewrite <- list_fmap_compose.
Qed.

Lemma default_validation_window_witness :
  let E : Externals := Double.all_half in
  let y_train := take 22 Double.y24 in
  let y_val := drop 22 Double.y24 in
  ((Z.of_nat (length Double.y24) < 2 ^ 52)%Z
   ∧ resolve_period (PInt 12) = Ok 12%Z
   ∧ get_metric "smape" = Ok Double.first_forecast)
  ∧ resolve_val_size Double.y24 None = 2
  ∧ train_val_split Double.y24 (resolve_val_size Double.y24 None) = (y_train, y_val)
  ∧ y_train ++ y_val = Double.y24
  ∧ length y_val = 2
  ∧ length y_train = 22
  ∧ _tune 1%positive (PInt 12) "smape" None Double.w0
    = match nanargmin
              ((λ permutation,
                  recorded (candidate_score y_train y_val Double.first_forecast
                              permutation (with_period 12 Double.w0)).1)
                 <$> params_permutations) with
      | Ok i =>
          match params_permutations !! i with
          | Some best => (Ok (), tuned_world 12 best Double.w0)
          | None => (Raise (IndexError "list index out of range"),
                     with_period 12 Double.w0)
          end
      | Raise e => (Raise e, with_period 12 Double.w0)
      end.
Proof.
  intros E y_train y_val.
  assert ((Z.of_nat (length Double.y24) < 2 ^ 52)%Z) as Hlen by (vm_compute; reflexivity).
  split; [split_and!; [exact Hlen | reflexivity | reflexivity]|].
  exact (default_validation_window 1%positive (PInt 12) "smape" Double.w0 12
           Double.first_forecast Hlen eq_refl eq_refl).
Defined.

(** ** [fit] and [predict] *)

Section Fit.
Context `{Externals}.

Lemma bind_read {B} (y : loc) (f : series → M B) (w : world) :
  (read y ≫= f) w = f (default [] (heap w !! y)) w.
Proof. done. Qed.

Lemma bind_get_period {B} (f : Z → M B) (w : world) (p : Z) :
  self_period (self w) = Some p → (get_period ≫= f) w = f p w.
Proof.
  intros Hp. unfold get_period, get_self, mbind, M_bind. by rewrite Hp.
Qed.

Lemma bind_param {B} (k : string) (f : pyval → M B) (w : world) :
  (param k ≫= f) w
  = match getitem (self_params (self w)) k with
    | Ok v => f v w
    | Raise e => (Raise e, w)
    end.
Proof.
  unfold param, get_self, call, mbind, M_bind. by destruct (getitem _ _).
Qed.

(** After [_tune], [self.params[k]] is the selected value of a grid key. *)
Lemma tuned_getitem (best d : dict) (k : string) (i : nat) :
  params_permutations !! i = Some best →
  k ∈ grid_keys →
  ∃ v, best !! k = Some v
       ∧ getitem (<["tuned" := VBool true]> (update d best)) k = Ok v.
Proof.
  intros Hbest Hk. pose proof (permutation_dom _ _ Hbest) as Hdom.
  assert (k ≠ "tuned") as Hne.
  { intros ->. by apply tuned_not_grid_key. }
  rewrite <- Hdom in Hk. apply elem_of_dom in Hk as [v Hv].
  exists v. split; [done|]. unfold getitem, update.
  rewrite lookup_insert_ne by done.
  by rewrite (lookup_union_Some_l _ _ _ _ Hv).
Qed.

Lemma fit_Ok_inv y period metric val_size w w' :
  fit y period metric val_size w = (Ok (), w') →
  ∃ p i best trend seasonal damped use_boxcox remove_bias model fitted,
    _tune y period metric val_size (entered y w)
    = (Ok (), tuned_world p best (entered y w))
    ∧ params_permutations !! i = Some best
    ∧ best !! "trend" = Some trend
    ∧ best !! "seasonal" = Some seasonal
    ∧ best !! "damped" = Some damped
    ∧ best !! "use_boxcox" = Some use_boxcox
    ∧ best !! "remove_bias" = Some remove_bias
    ∧ ExponentialSmoothing (default [] (heap w !! y)) p trend seasonal damped = Ok model
    ∧ model_fit model use_boxcox remove_bias = Ok fitted
    ∧ w' = with_model fitted (tuned_world p best (entered y w)).
Proof.
  unfold fit.
  do 3 (rewrite bind_run; cbn [set_y set_name set_key set_self self heap
    self_period self_params self_model self_y self_name self_key]).
  change ({| self := _; heap := heap w |}) with (entered y w).
  rewrite bind_run.
  destruct (_tune y period metric val_size (entered y w)) as [[[]|e] wt] eqn:Htune;
    [|done].
  pose proof Htune as Hinv.
  apply _tune_Ok_inv in Hinv as (p & mf & i & best & Hp & Hm & Hi & Hbest & ->).
  rewrite bind_read, (bind_get_period _ _ p) by done.
  assert (∀ k, k ∈ grid_keys → ∃ v, best !! k = Some v
    ∧ getitem (self_params (self (tuned_world p best (entered y w)))) k = Ok v) as Hget.
  { intros k Hk. by eapply tuned_getitem. }
  destruct (Hget "trend") as (trend & Htrend & Gtrend);
    [apply (bool_decide_unpack _); vm_compute; exact I|].
  destruct (Hget "seasonal") as (seasonal & Hseasonal & Gseasonal);
    [apply (bool_decide_unpack _); vm_compute; exact I|].
  destruct (Hget "damped") as (damped & Hdamped & Gdamped);
    [apply (bool_decide_unpack _); vm_compute; exact I|].
  destruct (Hget "use_boxcox") as (use_boxcox & Huse_boxcox & Guse_boxcox);
    [apply (bool_decide_unpack _); vm_compute; exact I|].
  destruct (Hget "remove_bias") as (remove_bias & Hremove_bias & Gremove_bias);
    [apply (bool_decide_unpack _); vm_compute; exact I|].
  rewrite bind_param, Gtrend, bind_param, Gseasonal, bind_param, Gdamped.
  rewrite bind_call.
  change (heap (tuned_world p best (entered y w)) !! y) with (heap w !! y).
  destruct (ExponentialSmoothing _ p trend seasonal damped) as [model|e] eqn:Hmodel;
    [|done].
  rewrite bind_param, Guse_boxcox, bind_param, Gremove_bias, bind_call.
  destruct (model_fit model use_boxcox remove_bias) as [fitted|e] eqn:Hfitted; [|done].
  intros Hw'. injection Hw' as <-.
  exists p, i, best, trend, seasonal, damped, use_boxcox, remove_bias, model, fitted.
  split_and!; done.
Qed.

End Fit.

(** C7. Whenever [fit] returns, it has first run [_tune] (from the world in
    which [self.y], [self.name] and [self.key] are assigned), then built and
    fitted the external model on the entire series of [y], which is the
    training and the validation portion together, with the period and
    exactly the five values of the selected combination that [params] holds,
    and it leaves the fitted model in [self.model] and [y] in [self.y]. *)
Theorem fit_refits_on_full_series `{Externals}
    (y : loc) (period : period_arg) (metric : string) (val_size : option nat)
    (w w' : world) :
  fit y period metric val_size w = (Ok (), w') →
  ∃ p i best trend seasonal damped use_boxcox remove_bias model fitted,
    _tune y period metric val_size (entered y w)
    = (Ok (), tuned_world p best (entered y w))
    ∧ params_permutations !! i = Some best
    ∧ self_params (self w') !! "trend" = Some trend
    ∧ self_params (self w') !! "seasonal" = Some seasonal
    ∧ self_params (self w') !! "damped" = Some damped
    ∧ self_params (self w') !! "use_boxcox" = Some use_boxcox
    ∧ self_params (self w') !! "remove_bias" = Some remove_bias
    ∧ best !! "trend" = Some trend
    ∧ best !! "seasonal" = Some seasonal
    ∧ best !! "damped" = Some damped
    ∧ best !! "use_boxcox" = Some use_boxcox
    ∧ best !! "remove_bias" = Some remove_bias
    ∧ (∀ v, (train_val_split (default [] (heap w !! y)) v).1
            ++ (train_val_split (default [] (heap w !! y)) v).2
            = default [] (heap w !! y))
    ∧ ExponentialSmoothing (default [] (heap w !! y)) p trend seasonal damped = Ok model
    ∧ model_fit model use_boxcox remove_bias = Ok fitted
    ∧ self_model (self w') = Some fitted
    ∧ self_y (self w') = Some y
    ∧ self_period (self w') = Some p
    ∧ self_params (self w') = self_params (self (tuned_world p best (entered y w)))
    ∧ heap w' = heap w.
Proof.
  intros Hfit.
  apply fit_Ok_inv in Hfit
    as (p & i & best & trend & seasonal & damped & use_boxcox & remove_bias & model
        & fitted & Htune & Hbest & Ht & Hs & Hd & Hu & Hr & Hmodel & Hfitted & ->).
  exists p, i, best, trend, seasonal, damped, use_boxcox, remove_bias, model, fitted.
  assert (∀ k v, best !! k = Some v → k ≠ "tuned" →
    self_params (self (with_model fitted (tuned_world p best (entered y w)))) !! k
    = Some v) as Hparam.
  { intros k v Hk Hne. cbn. rewrite lookup_insert_ne by done.
    by apply lookup_union_Some_l. }
  split_and!; try done; try (by apply Hparam).
  intros v. apply train_val_split_app.
Qed.

Lemma fit_refits_on_full_series_witness :
  let E : Externals := Double.prefers Double.c30 in
  let w' := with_model (Double.fl 1 (-2))
              (tuned_world 12 (Double.as_dict Double.c30) (entered 1%positive Double.w0)) in
  Double.run_fit E = (Ok (), w')
  ∧ ∃ p i best trend seasonal damped use_boxcox remove_bias model fitted,
      _tune 1%positive (PInt 12) "smape" (Some 3) (entered 1%positive Double.w0)
      = (Ok (), tuned_world p best (entered 1%positive Double.w0))
      ∧ params_permutations !! i = Some best
      ∧ self_params (self w') !! "trend" = Some trend
      ∧ self_params (self w') !! "seasonal" = Some seasonal
      ∧ self_params (self w') !! "damped" = Some damped
      ∧ self_params (self w') !! "use_boxcox" = Some use_boxcox
      ∧ self_params (self w') !! "remove_bias" = Some remove_bias
      ∧ best !! "trend" = Some trend
      ∧ best !! "seasonal" = Some seasonal
      ∧ best !! "damped" = Some damped
      ∧ best !! "use_boxcox" = Some use_boxcox
      ∧ best !! "remove_bias" = Some remove_bias
      ∧ (∀ v, (train_val_split (default [] (heap Double.w0 !! 1%positive)) v).1
              ++ (train_val_split (default [] (heap Double.w0 !! 1%positive)) v).2
              = default [] (heap Double.w0 !! 1%positive))
      ∧ ExponentialSmoothing (default [] (heap Double.w0 !! 1%positive)) p
          trend seasonal damped = Ok model
      ∧ model_fit model use_boxcox remove_bias = Ok fitted
      ∧ self_model (self w') = Some fitted
      ∧ self_y (self w') = Some 1%positive
      ∧ self_period (self w') = Some p
      ∧ self_params (self w')
        = self_params (self (tuned_world p best (entered 1%positive Double.w0)))
      ∧ heap w' = heap Double.w0.
Proof.
  intros E w'.
  assert (Double.run_fit E = (Ok (), w')) as Hrun by (vm_compute; reflexivity).
  split; [exact Hrun|].
  exact (fit_refits_on_full_series 1%positive (PInt 12) "smape" (Some 3) _ _ Hrun).
Defined.

(** What [predict] returns depends on [self.model] alone: the forecast of
    the stored model, when that forecast has the attribute [values]. *)
Lemma predict_value `{Externals} (horizon : nat) (w : world) :
  predict horizon w
  = (match self_model (self w) with
     | None => Raise (AttributeError "forecast")
     | Some model =>
         match forecast model horizon with
         | Ok forecasts =>
             if forecast_has_values model then Ok forecasts
             else Raise (AttributeError "values")
         | Raise e => Raise e
         end
     end, w).
Proof.
  unfold predict, get_model, get_self, call, mbind, M_bind, mret, M_ret.
  destruct (self_model (self w)) as [model|]; [|done]. cbn.
  destruct (forecast model horizon); [|done].
  by destruct (forecast_has_values model).
Qed.

(** C9. After a [fit] that returned, [predict(h)] asks the fitted model
    that [fit] stored for its forecast of [h] steps and returns the
    attribute [values] of that forecast, leaving the instance as it was.
    Where the forecast has that attribute (the series was given as a
    pd.Series), [predict(h)] returns the forecast's values; where it has
    not (the series was given as a 1-D np.array, and so the forecast is an
    ndarray), [predict(h)] raises AttributeError for every horizon and
    returns no sequence at all. *)
Theorem predict_after_fit `{Externals}
    (y : loc) (period : period_arg) (metric : string) (val_size : option nat)
    (w w' : world) (horizon : nat) :
  fit y period metric val_size w = (Ok (), w') →
  ∃ fitted,
    self_model (self w') = Some fitted
    ∧ predict horizon w'
      = (match forecast fitted horizon with
         | Ok forecasts =>
             if forecast_has_values fitted then Ok forecasts
             else Raise (AttributeError "values")
         | Raise e => Raise e
         end, w')
    ∧ (forecast_has_values fitted = true →
       ∀ forecasts, forecast fitted horizon = Ok forecasts →
         predict horizon w' = (Ok forecasts, w'))
    ∧ (forecast_has_values fitted = false →
       ∀ forecasts, forecast fitted horizon = Ok forecasts →
         predict horizon w' = (Raise (AttributeError "values"), w'))
    ∧ (forecast_has_values fitted = false →
       ∀ forecasts, (predict horizon w').1 ≠ Ok forecasts).
Proof.
  intros Hfit.
  apply fit_Ok_inv in Hfit
    as (p & i & best & trend & seasonal & damped & use_boxcox & remove_bias & model
        & fitted & _ & _ & _ & _ & _ & _ & _ & _ & _ & ->).
  exists fitted. split; [done|].
  assert (self_model (self (with_model fitted (tuned_world p best (entered y w))))
          = Some fitted) as Hmodel by done.
  rewrite predict_value, Hmodel.
  split; [done|]. split_and!.
  - intros -> forecasts ->. done.
  - intros -> forecasts ->. done.
  - intros -> forecasts. cbn [fst]. by destruct (forecast fitted horizon).
Qed.

Lemma predict_after_fit_witness :
  let E : Externals := Double.ndarray in
  let w' := with_model (Double.fl 1 (-1))
              (tuned_world 12 (Double.as_dict Double.c0) (entered 1%positive Double.w0)) in
  Double.run_fit E = (Ok (), w')
  ∧ predict 6 w' = (Raise (AttributeError "values"), w')
  ∧ ∃ fitted,
      self_model (self w') = Some fitted
      ∧ predict 6 w'
        = (match forecast fitted 6 with
           | Ok forecasts =>
               if forecast_has_values fitted then Ok forecasts
               else Raise (AttributeError "values")
           | Raise e => Raise e
           end, w')
      ∧ (forecast_has_values fitted = true →
         ∀ forecasts, forecast fitted 6 = Ok forecasts →
           predict 6 w' = (Ok forecasts, w'))
      ∧ (forecast_has_values fitted = false →
         ∀ forecasts, forecast fitted 6 = Ok forecasts →
           predict 6 w' = (Raise (AttributeError "values"), w'))
      ∧ (forecast_has_values fitted = false →
         ∀ forecasts, (predict 6 w').1 ≠ Ok forecasts).
Proof.
  intros E w'.
  assert (Double.run_fit E = (Ok (), w')) as Hrun by (vm_compute; reflexivity).
  split; [exact Hrun|]. split; [vm_compute; reflexivity|].
  exact (predict_after_fit 1%positive (PInt 12) "smape" (Some 3) _ _ 6 Hrun).
Defined.

(** C10, as stated, fails: the metric of the candidate at position 0
    returns NaN, every other candidate raises and is recorded with [+inf],
    and [_tune] returns with the NaN candidate selected. *)
Lemma nan_candidate_selected :
  let E : Externals := Double.only Double.c0 S754_nan in
  candidate_outcomes 1%positive 12 Double.first_forecast (Some 3) Double.w0
  = <[0 := Ok S754_nan]> (replicate 48 (Raise (ValueError "fit")))
  ∧ recorded_scores 1%positive 12 Double.first_forecast (Some 3) Double.w0
    = <[0 := S754_nan]> (replicate 48 np_inf)
  ∧ nanargmin (recorded_scores 1%positive 12 Double.first_forecast (Some 3) Double.w0)
    = Ok 0
  ∧ params_permutations !! 0 = Some (Double.as_dict Double.c0)
  ∧ Double.run_tune E = (Ok (), tuned_world 12 (Double.as_dict Double.c0) Double.w0).
Proof. intros E. split_and!; vm_compute; reflexivity. Qed.

(** C10, amended. A candidate whose metric returns NaN is recorded with a
    NaN score.  When some recorded score is below positive infinity,
    [_tune] returns and the selected score is not NaN.  When every recorded
    score is NaN, [_tune] raises instead of returning a winner. *)
Theorem nan_scores_in_tuning `{Externals}
    (y : loc) (period : period_arg) (metric : string) (val_size : option nat)
    (w : world) (p : Z) (metric_fun : series → series → res float) :
  resolve_period period = Ok p →
  get_metric metric = Ok metric_fun →
  (∀ k, candidate_outcomes y p metric_fun val_size w !! k = Some (Ok S754_nan) →
        recorded_scores y p metric_fun val_size w !! k = Some S754_nan)
  ∧ ((∃ j sj, recorded_scores y p metric_fun val_size w !! j = Some sj
              ∧ SFltb sj np_inf = true) →
     ∃ i best si,
       params_permutations !! i = Some best
       ∧ recorded_scores y p metric_fun val_size w !! i = Some si
       ∧ isnan si = false
       ∧ _tune y period metric val_size w = (Ok (), tuned_world p best w))
  ∧ ((∀ j sj, recorded_scores y p metric_fun val_size w !! j = Some sj →
              isnan sj = true) →
     _tune y period metric val_size w
     = (Raise (ValueError "All-NaN slice encountered"), with_period p w)).
Proof.
  intros Hp Hm. split_and!.
  - intros k Hk. by rewrite recorded_scores_lookup, Hk.
  - intros (j & sj & Hj & Hlt).
    assert (Hnan : isnan sj = false) by (by destruct sj).
    destruct (nanargmin_some _ _ _ Hj Hnan) as [i Hi].
    destruct (_tune_Ok y period metric val_size w p metric_fun i Hp Hm Hi)
      as (best & Hbest & Hrun).
    destruct (selected_lookup _ _ Hi) as [si Hsi].
    exists i, best, si. split_and!; try done.
    exact (selected_not_nan _ _ Hi si j sj Hsi Hj Hlt).
  - intros Hall. rewrite (_tune_run _ _ _ _ _ _ _ Hp Hm).
    rewrite nanargmin_all_nan; [done| |done].
    intros Hnil. apply (f_equal length) in Hnil.
    by rewrite recorded_scores_length in Hnil.
Qed.

Lemma nan_scores_in_tuning_witness :
  let E : Externals := Double.nan_first Double.c30 (Double.fl 1 (-2)) in
  (resolve_period (PInt 12) = Ok 12%Z
   ∧ get_metric "smape" = Ok Double.first_forecast)
  ∧ (∀ k, candidate_outcomes 1%positive 12 Double.first_forecast (Some 3) Double.w0 !! k
          = Some (Ok S754_nan) →
          recorded_scores 1%positive 12 Double.first_forecast (Some 3) Double.w0 !! k
          = Some S754_nan)
  ∧ ((∃ j sj, recorded_scores 1%positive 12 Double.first_forecast (Some 3) Double.w0 !! j
              = Some sj
              ∧ SFltb sj np_inf = true) →
     ∃ i best si,
       params_permutations !! i = Some best
       ∧ recorded_scores 1%positive 12 Double.first_forecast (Some 3) Double.w0 !! i
         = Some si
       ∧ isnan si = false
       ∧ _tune 1%positive (PInt 12) "smape" (Some 3) Double.w0
         = (Ok (), tuned_world 12 best Double.w0))
  ∧ ((∀ j sj, recorded_scores 1%positive 12 Double.first_forecast (Some 3) Double.w0 !! j
              = Some sj →
              isnan sj = true) →
     _tune 1%positive (PInt 12) "smape" (Some 3) Double.w0
     = (Raise (ValueError "All-NaN slice encountered"), with_period 12 Double.w0)).
Proof.
  intros E. split; [split; vm_compute; reflexivity|].
  apply (nan_scores_in_tuning 1%positive (PInt 12) "smape" (Some 3) Double.w0 12
           Double.first_forecast); vm_compute; reflexivity.
Defined.

(** ** The enumeration of the grid (lines 35-43) *)

Lemma product_elem {A} (pools : list (list A)) (v : list A) :
  v ∈ product pools ↔ Forall2 (λ x pool, x ∈ pool) v pools.
Proof.
  revert v. induction pools as [|pool pools IH]; intros v; cbn [product].
  - rewrite list_elem_of_singleton. split; [intros ->; constructor | by inversion 1].
  - rewrite list_elem_of_bind. split.
    + intros (x & Hv & Hx). apply list_elem_of_fmap in Hv as (r & -> & Hr).
      constructor; [done | by apply IH].
    + inversion 1 as [|x pool' r pools' Hx Hr]; subst.
      exists x. split; [|done].
      apply list_elem_of_fmap. exists r. split; [done | by apply IH].
Qed.

Lemma product_NoDup {A} (pools : list (list A)) :
  Forall NoDup pools → NoDup (product pools).
Proof.
  induction 1 as [|pool pools Hpool Hpools IH]; cbn [product].
  - apply NoDup_singleton.
  - apply NoDup_bind; [| |done].
    + intros x1 x2 v _ _ H1 H2.
      apply list_elem_of_fmap in H1 as (r1 & -> & _).
      apply list_elem_of_fmap in H2 as (r2 & Heq & _). congruence.
    + intros x _. apply NoDup_fmap_2; [|done]. intros r1 r2. congruence.
Qed.

(** The members of the product of the grid's value lists. *)
Lemma params_values_product (v : list pyval) :
  v ∈ product params_values ↔
  ∃ trend seasonal damped use_boxcox remove_bias,
    trend ∈ [VStr "add"; VStr "mul"]
    ∧ seasonal ∈ [VStr "add"; VStr "mul"]
    ∧ damped ∈ [VBool true; VBool false]
    ∧ use_boxcox ∈ [VBool true; VBool false; VStr "log"]
    ∧ remove_bias ∈ [VBool true; VBool false]
    ∧ v = [trend; seasonal; damped; use_boxcox; remove_bias].
Proof.
  rewrite product_elem. unfold params_values, params_grid. cbn [fmap list_fmap snd].
  split.
  - intros Hv.
    repeat match goal with
           | H : Forall2 _ _ (_ :: _) |- _ => apply Forall2_cons_inv_r in H as (? & ? & ? & H & ->)
           | H : Forall2 _ _ [] |- _ => apply Forall2_nil_inv_r in H as ->
           end.
    eauto 15.
  - intros (t & s & d & u & r & Ht & Hs & Hd & Hu & Hr & ->).
    repeat (constructor; [assumption|]). constructor.
Qed.

(** X1. The grid search is exhaustive and without repetition: the list of
    candidates has 48 entries, no two of them equal, and a dictionary is a
    candidate exactly when it maps the five keys of the grid to values of
    the grid, one from each list. *)
Theorem grid_enumeration_exhaustive :
  length params_permutations = 48
  ∧ NoDup params_permutations
  ∧ ∀ d : dict,
      d ∈ params_permutations ↔
      ∃ trend seasonal damped use_boxcox remove_bias,
        trend ∈ [VStr "add"; VStr "mul"]
        ∧ seasonal ∈ [VStr "add"; VStr "mul"]
        ∧ damped ∈ [VBool true; VBool false]
        ∧ use_boxcox ∈ [VBool true; VBool false; VStr "log"]
        ∧ remove_bias ∈ [VBool true; VBool false]
        ∧ d = {[ "trend" := trend; "seasonal" := seasonal; "damped" := damped;
                 "use_boxcox" := use_boxcox; "remove_bias" := remove_bias ]}.
Proof.
  assert (∀ t s d u r : pyval,
    dict_of (zip params_keys [t; s; d; u; r])
    = {[ "trend" := t; "seasonal" := s; "damped" := d;
         "use_boxcox" := u; "remove_bias" := r ]}) as Hdict.
  { intros. vm_compute. reflexivity. }
  split; [reflexivity|]. split.
  - unfold params_permutations. apply NoDup_fmap_2_strong.
    + intros v1 v2 Hv1 Hv2 Heq.
      apply params_values_product in Hv1 as (t1 & s1 & d1 & u1 & r1 & _ & _ & _ & _ & _ & ->).
      apply params_values_product in Hv2 as (t2 & s2 & d2 & u2 & r2 & _ & _ & _ & _ & _ & ->).
      rewrite !Hdict in Heq.
      pose proof (f_equal (.!! "trend") Heq) as Ht.
      pose proof (f_equal (.!! "seasonal") Heq) as Hs.
      pose proof (f_equal (.!! "damped") Heq) as Hd.
      pose proof (f_equal (.!! "use_boxcox") Heq) as Hu.
      pose proof (f_equal (.!! "remove_bias") Heq) as Hr.
      vm_compute in Ht, Hs, Hd, Hu, Hr. congruence.
    + apply product_NoDup. apply (bool_decide_unpack _). vm_compute. exact I.
  - intros d. unfold params_permutations. rewrite list_elem_of_fmap. split.
    + intros (v & -> & Hv).
      apply params_values_product in Hv as (t & s & dm & u & r & Ht & Hs & Hd & Hu & Hr & ->).
      exists t, s, dm, u, r. by rewrite Hdict.
    + intros (t & s & dm & u & r & Ht & Hs & Hd & Hu & Hr & ->).
      exists [t; s; dm; u; r]. split; [by rewrite Hdict|].
      apply params_values_product. eauto 15.
Qed.

(** X2. The candidates come in the order of [itertools.product], the last
    key advancing fastest: the candidate at position [i] takes its trend at
    index [i / 24], its seasonal at [i / 12 mod 2], its damping at
    [i / 6 mod 2], its Box-Cox mode at [i / 2 mod 3] and its bias flag at
    [i mod 2] of the grid's lists. *)
Theorem grid_enumeration_order (i : nat) :
  i < 48 →
  ∃ trend seasonal damped use_boxcox remove_bias,
    [VStr "add"; VStr "mul"] !! (i / 24) = Some trend
    ∧ [VStr "add"; VStr "mul"] !! (i / 12 mod 2) = Some seasonal
    ∧ [VBool true; VBool false] !! (i / 6 mod 2) = Some damped
    ∧ [VBool true; VBool false; VStr "log"] !! (i / 2 mod 3) = Some use_boxcox
    ∧ [VBool true; VBool false] !! (i mod 2) = Some remove_bias
    ∧ params_permutations !! i
      = Some {[ "trend" := trend; "seasonal" := seasonal; "damped" := damped;
                "use_boxcox" := use_boxcox; "remove_bias" := remove_bias ]}.
Proof.
  intros Hi.
  pose (expected := λ i : nat,
    trend ← [VStr "add"; VStr "mul"] !! (i / 24);
    seasonal ← [VStr "add"; VStr "mul"] !! (i / 12 mod 2);
    damped ← [VBool true; VBool false] !! (i / 6 mod 2);
    use_boxcox ← [VBool true; VBool false; VStr "log"] !! (i / 2 mod 3);
    remove_bias ← [VBool true; VBool false] !! (i mod 2);
    Some ({[ "trend" := trend; "seasonal" := seasonal; "damped" := damped;
             "use_boxcox" := use_boxcox; "remove_bias" := remove_bias ]} : dict)).
  assert (Forall (λ i, params_permutations !! i = expected i) (seq 0 48)) as Hall.
  { apply (bool_decide_unpack _). vm_compute. exact I. }
  assert (params_permutations !! i = expected i) as Heq.
  { apply (proj1 (Forall_forall _ _) Hall), elem_of_seq. lia. }
  assert (is_Some (params_permutations !! i)) as [d Hd]
    by (apply lookup_lt_is_Some_2; exact Hi).
  rewrite Hd in Heq. unfold expected in Heq. clear Hall expected.
  repeat match type of Heq with
         | Some _ = (?o ≫= _) =>
             let E := fresh "E" in
             destruct o eqn:E; [cbn [mbind option_bind] in Heq | discriminate Heq]
         end.
  injection Heq as ->. rewrite Hd. eexists _, _, _, _, _.
  split_and!; first [eassumption | reflexivity].
Qed.

Lemma grid_enumeration_order_witness :
  30 < 48
  ∧ ∃ trend seasonal damped use_boxcox remove_bias,
      [VStr "add"; VStr "mul"] !! (30 / 24) = Some trend
      ∧ [VStr "add"; VStr "mul"] !! (30 / 12 mod 2) = Some seasonal
      ∧ [VBool true; VBool false] !! (30 / 6 mod 2) = Some damped
      ∧ [VBool true; VBool false; VStr "log"] !! (30 / 2 mod 3) = Some use_boxcox
      ∧ [VBool true; VBool false] !! (30 mod 2) = Some remove_bias
      ∧ params_permutations !! 30
        = Some {[ "trend" := trend; "seasonal" := seasonal; "damped" := damped;
                  "use_boxcox" := use_boxcox; "remove_bias" := remove_bias ]}.
Proof. split; [lia | apply (grid_enumeration_order 30); lia]. Defined.

(** ** How [_tune] fails, and when it returns *)

Lemma nanargmin_Raise (a : list float) (e : pyexn) :
  nanargmin a = Raise e →
  a = [] ∨ (e = ValueError "All-NaN slice encountered"
            ∧ ∀ j x, a !! j = Some x → isnan x = true).
Proof.
  unfold nanargmin.
  destruct (bool_decide (a ≠ []) && forallb isnan a) eqn:E.
  - intros [= <-]. apply andb_true_iff in E as [_ E]. right.
    split; [done | by apply forallb_isnan].
  - destruct a; [by left | done].
Qed.

(** X3. When [_tune] raises, [params] is what it was before the call (the
    flag "tuned" is not set) and the stored model is untouched.  The
    exception is the one of the period alias, with the instance unchanged;
    or the one of the metric lookup, with only [period] assigned; or the
    ValueError of [nanargmin], which means that every recorded score is
    NaN. *)
Theorem tune_raise_leaves_params `{Externals}
    (y : loc) (period : period_arg) (metric : string) (val_size : option nat)
    (w w' : world) (e : pyexn) :
  _tune y period metric val_size w = (Raise e, w') →
  self_params (self w') = self_params (self w)
  ∧ self_model (self w') = self_model (self w)
  ∧ (resolve_period period = Raise e ∧ w' = w
     ∨ ∃ p,
         resolve_period period = Ok p
         ∧ w' = with_period p w
         ∧ (get_metric metric = Raise e
            ∨ ∃ metric_fun,
                get_metric metric = Ok metric_fun
                ∧ e = ValueError "All-NaN slice encountered"
                ∧ ∀ j sj, recorded_scores y p metric_fun val_size w !! j = Some sj →
                          isnan sj = true)).
Proof.
  intros Hrun. destruct (resolve_period period) as [p|e'] eqn:Hp.
  2: { rewrite (_tune_raise_period _ _ _ _ _ _ Hp) in Hrun.
       injection Hrun as -> ->. split_and!; [done..|]. by left. }
  destruct (get_metric metric) as [metric_fun|e'] eqn:Hm.
  2: { rewrite (_tune_raise_metric _ _ _ _ _ _ _ Hp Hm) in Hrun.
       injection Hrun as -> <-. split_and!; [done..|].
       right. exists p. split_and!; [done..|]. by left. }
  rewrite (_tune_run _ _ _ _ _ _ _ Hp Hm) in Hrun.
  destruct (nanargmin _) as [i|e'] eqn:Hi.
  { destruct (selected_in_grid _ _ _ _ _ _ Hi) as [best Hbest].
    by rewrite Hbest in Hrun. }
  injection Hrun as -> <-. split_and!; [done..|].
  right. exists p. split_and!; [done..|]. right. exists metric_fun.
  apply nanargmin_Raise in Hi as [Hnil|[-> Hall]]; [|done].
  apply (f_equal length) in Hnil. by rewrite recorded_scores_length in Hnil.
Qed.

Lemma tune_raise_leaves_params_witness :
  let E : Externals := Double.all_half in
  _tune 1%positive (PStr "yearly") "smape" (Some 3) (Double.used (λ _, Ok (Double.fl 1 (-1))))
  = (Raise (KeyError "yearly"), Double.used (λ _, Ok (Double.fl 1 (-1))))
  ∧ self_params (self (Double.used (λ _, Ok (Double.fl 1 (-1)))))
    = self_params (self (Double.used (λ _, Ok (Double.fl 1 (-1)))))
  ∧ self_model (self (Double.used (λ _, Ok (Double.fl 1 (-1)))))
    = self_model (self (Double.used (λ _, Ok (Double.fl 1 (-1)))))
  ∧ (resolve_period (PStr "yearly") = Raise (KeyError "yearly")
     ∧ Double.used (λ _, Ok (Double.fl 1 (-1))) = Double.used (λ _, Ok (Double.fl 1 (-1)))
     ∨ ∃ p,
         resolve_period (PStr "yearly") = Ok p
         ∧ Double.used (λ _, Ok (Double.fl 1 (-1)))
           = with_period p (Double.used (λ _, Ok (Double.fl 1 (-1))))
         ∧ (get_metric "smape" = Raise (KeyError "yearly")
            ∨ ∃ metric_fun,
                get_metric "smape" = Ok metric_fun
                ∧ KeyError "yearly" = ValueError "All-NaN slice encountered"
                ∧ ∀ j sj,
                    recorded_scores 1%positive p metric_fun (Some 3)
                      (Double.used (λ _, Ok (Double.fl 1 (-1)))) !! j = Some sj →
                    isnan sj = true)).
Proof.
  intros E.
  assert (_tune 1%positive (PStr "yearly") "smape" (Some 3)
            (Double.used (λ _, Ok (Double.fl 1 (-1))))
          = (Raise (KeyError "yearly"), Double.used (λ _, Ok (Double.fl 1 (-1))))) as Hrun
    by (vm_compute; reflexivity).
  split; [exact Hrun|].
  exact (tune_raise_leaves_params 1%positive (PStr "yearly") "smape" (Some 3) _ _ _ Hrun).
Defined.

(** X4. Once the period and the metric are resolved, [_tune] returns exactly
    when some recorded score is not NaN.  In particular it returns as soon
    as one candidate raised, since that candidate is recorded with
    [np.inf]. *)
Theorem tune_returns_iff_some_score_not_nan `{Externals}
    (y : loc) (period : period_arg) (metric : string) (val_size : option nat)
    (w : world) (p : Z) (metric_fun : series → series → res float) :
  resolve_period period = Ok p →
  get_metric metric = Ok metric_fun →
  ((∃ w', _tune y period metric val_size w = (Ok (), w'))
   ↔ ∃ j sj, recorded_scores y p metric_fun val_size w !! j = Some sj
             ∧ isnan sj = false)
  ∧ ((∃ j e, candidate_outcomes y p metric_fun val_size w !! j = Some (Raise e)) →
     ∃ w', _tune y period metric val_size w = (Ok (), w')).
Proof.
  intros Hp Hm.
  assert ((∃ j sj, recorded_scores y p metric_fun val_size w !! j = Some sj
                   ∧ isnan sj = false)
          → ∃ w', _tune y period metric val_size w = (Ok (), w')) as Hback.
  { intros (j & sj & Hj & Hnan).
    destruct (nanargmin_some _ _ _ Hj Hnan) as [i Hi].
    destruct (_tune_Ok y period metric val_size w p metric_fun i Hp Hm Hi)
      as (best & _ & Hrun). eauto. }
  split; [split; [|done]|].
  - intros [w' Hrun]. rewrite (_tune_run _ _ _ _ _ _ _ Hp Hm) in Hrun.
    destruct (nanargmin _) as [i|e] eqn:Hi; [|done].
    destruct (selected_lookup _ _ Hi) as [si Hsi].
    unfold nanargmin in Hi.
    destruct (bool_decide _ && forallb isnan _) eqn:E; [done|].
    apply andb_false_iff in E as [E|E].
    { apply bool_decide_eq_false in E. destruct E. intros Hnil.
      by rewrite Hnil in Hsi. }
    clear Hi Hsi Hrun Hback.
    induction (recorded_scores y p metric_fun val_size w) as [|x a IH]; [done|].
    cbn in E. destruct (isnan x) eqn:Hx.
    + destruct (IH E) as (j & sj & Hj & Hsj). by exists (S j), sj.
    + by exists 0, x.
  - intros (j & e & Hj). apply Hback. exists j, np_inf.
    by rewrite recorded_scores_lookup, Hj.
Qed.

Lemma tune_returns_iff_some_score_not_nan_witness :
  let E : Externals := Double.all_fail in
  (resolve_period (PInt 12) = Ok 12%Z
   ∧ get_metric "smape" = Ok Double.first_forecast)
  ∧ ((∃ w', _tune 1%positive (PInt 12) "smape" (Some 3) Double.w0 = (Ok (), w'))
     ↔ ∃ j sj, recorded_scores 1%positive 12 Double.first_forecast (Some 3) Double.w0 !! j
               = Some sj
               ∧ isnan sj = false)
  ∧ ((∃ j e, candidate_outcomes 1%positive 12 Double.first_forecast (Some 3) Double.w0 !! j
             = Some (Raise e)) →
     ∃ w', _tune 1%positive (PInt 12) "smape" (Some 3) Double.w0 = (Ok (), w')).
Proof.
  intros E. split; [split; vm_compute; reflexivity|].
  apply (tune_returns_iff_some_score_not_nan 1%positive (PInt 12) "smape" (Some 3)
           Double.w0 12 Double.first_forecast); vm_compute; reflexivity.
Defined.

(** ** Tuning and fitting again on a used instance *)

Section Again.
Context `{Externals}.

(** The outcome of the [try] block as a function of [self.period]: it reads
    nothing else of the instance. *)
Lemma candidate_score_value y_train y_val metric_fun permutation (w : world) :
  (candidate_score y_train y_val metric_fun permutation w).1
  = match self_period (self w) with
    | None => Raise (AttributeError "period")
    | Some p =>
        match getitem permutation "trend" with
        | Raise e => Raise e
        | Ok trend =>
        match getitem permutation "seasonal" with
        | Raise e => Raise e
        | Ok seasonal =>
        match getitem permutation "damped" with
        | Raise e => Raise e
        | Ok damped =>
        match ExponentialSmoothing y_train p trend seasonal damped with
        | Raise e => Raise e
        | Ok model =>
        match getitem permutation "use_boxcox" with
        | Raise e => Raise e
        | Ok use_boxcox =>
        match getitem permutation "remove_bias" with
        | Raise e => Raise e
        | Ok remove_bias =>
        match model_fit model use_boxcox remove_bias with
        | Raise e => Raise e
        | Ok fitted =>
        match forecast fitted (length y_val) with
        | Raise e => Raise e
        | Ok y_pred => metric_fun y_val y_pred
        end end end end end end end end
    end.
Proof.
  unfold candidate_score, get_period, get_self, call, mbind, M_bind, mret, M_ret.
  destruct (self_period (self w)) as [p|]; [|done].
  destruct (getitem permutation "trend") as [trend|]; [|done].
  destruct (getitem permutation "seasonal") as [seasonal|]; [|done].
  destruct (getitem permutation "damped") as [damped|]; [|done].
  destruct (ExponentialSmoothing y_train p trend seasonal damped) as [model|]; [|done].
  destruct (getitem permutation "use_boxcox") as [use_boxcox|]; [|done].
  destruct (getitem permutation "remove_bias") as [remove_bias|]; [|done].
  destruct (model_fit model use_boxcox remove_bias) as [fitted|]; [|done].
  by destruct (forecast fitted (length y_val)).
Qed.

Lemma candidate_score_period y_train y_val metric_fun permutation (w1 w2 : world) :
  self_period (self w1) = self_period (self w2) →
  (candidate_score y_train y_val metric_fun permutation w1).1
  = (candidate_score y_train y_val metric_fun permutation w2).1.
Proof. intros Hp. by rewrite !candidate_score_value, Hp. Qed.

Lemma recorded_scores_ext y p metric_fun val_size (w1 w2 : world) :
  heap w1 !! y = heap w2 !! y →
  recorded_scores y p metric_fun val_size w1 = recorded_scores y p metric_fun val_size w2.
Proof.
  intros Hy. unfold recorded_scores, candidate_outcomes. rewrite Hy.
  destruct (train_val_split _ _) as [y_train y_val]. f_equal.
  apply list_fmap_ext. intros _ permutation _. by apply candidate_score_period.
Qed.

(** [fit], once [_tune] has returned. *)
Lemma fit_run y period metric val_size w p i best
    trend seasonal damped use_boxcox remove_bias :
  _tune y period metric val_size (entered y w)
  = (Ok (), tuned_world p best (entered y w)) →
  params_permutations !! i = Some best →
  best !! "trend" = Some trend →
  best !! "seasonal" = Some seasonal →
  best !! "damped" = Some damped →
  best !! "use_boxcox" = Some use_boxcox →
  best !! "remove_bias" = Some remove_bias →
  fit y period metric val_size w
  = match ExponentialSmoothing (default [] (heap w !! y)) p trend seasonal damped with
    | Raise e => (Raise e, tuned_world p best (entered y w))
    | Ok model =>
        match model_fit model use_boxcox remove_bias with
        | Raise e => (Raise e, tuned_world p best (entered y w))
        | Ok fitted => (Ok (), with_model fitted (tuned_world p best (entered y w)))
        end
    end.
Proof.
  intros Htune Hbest Ht Hs Hd Hu Hr. unfold fit.
  do 3 (rewrite bind_run; cbn [set_y set_name set_key set_self self heap
    self_period self_params self_model self_y self_name self_key]).
  change ({| self := _; heap := heap w |}) with (entered y w).
  rewrite bind_run, Htune, bind_read, (bind_get_period _ _ p) by done.
  assert (∀ k v, best !! k = Some v → k ≠ "tuned" →
    getitem (self_params (self (tuned_world p best (entered y w)))) k = Ok v) as Hget.
  { intros k v Hk Hne. unfold getitem. cbn [tuned_world self self_params].
    unfold update. rewrite lookup_insert_ne by done.
    by rewrite (lookup_union_Some_l _ _ _ _ Hk). }
  rewrite bind_param, (Hget _ _ Ht), bind_param, (Hget _ _ Hs),
    bind_param, (Hget _ _ Hd), bind_call by done.
  change (heap (tuned_world p best (entered y w)) !! y) with (heap w !! y).
  destruct (ExponentialSmoothing _ p trend seasonal damped) as [model|e]; [|done].
  rewrite bind_param, (Hget _ _ Hu), bind_param, (Hget _ _ Hr), bind_call by done.
  by destruct (model_fit model use_boxcox remove_bias).
Qed.

Lemma fit_raise_tune y period metric val_size w e wt :
  _tune y period metric val_size (entered y w) = (Raise e, wt) →
  fit y period metric val_size w = (Raise e, wt).
Proof.
  intros Htune. unfold fit.
  do 3 (rewrite bind_run; cbn [set_y set_name set_key set_self self heap
    self_period self_params self_model self_y self_name self_key]).
  change ({| self := _; heap := heap w |}) with (entered y w).
  by rewrite bind_run, Htune.
Qed.

Lemma tuned_world_inj p p' i i' (best best' : dict) (w : world) :
  params_permutations !! i = Some best →
  params_permutations !! i' = Some best' →
  tuned_world p best w = tuned_world p' best' w →
  p = p' ∧ best = best'.
Proof.
  intros Hbest Hbest' Heq.
  pose proof (f_equal (λ w, self_period (self w)) Heq) as Hp. cbn in Hp.
  split; [congruence|].
  pose proof (f_equal (λ w, self_params (self w)) Heq) as Hd.
  cbn [tuned_world self self_params] in Hd. unfold update in Hd.
  pose proof (permutation_dom _ _ Hbest) as Hdom.
  pose proof (permutation_dom _ _ Hbest') as Hdom'.
  apply map_eq. intros k. destruct (decide (k ∈ grid_keys)) as [Hk|Hk].
  - assert (k ≠ "tuned") as Hne by (intros ->; by apply tuned_not_grid_key).
    apply (f_equal (.!! k)) in Hd. rewrite !lookup_insert_ne in Hd by done.
    pose proof Hk as Hk'. rewrite <- Hdom in Hk. rewrite <- Hdom' in Hk'.
    apply elem_of_dom in Hk as [v Hv]. apply elem_of_dom in Hk' as [v' Hv'].
    rewrite (lookup_union_Some_l _ _ _ _ Hv), (lookup_union_Some_l _ _ _ _ Hv') in Hd.
    congruence.
  - pose proof Hk as Hk'. rewrite <- Hdom in Hk. rewrite <- Hdom' in Hk'.
    apply not_elem_of_dom in Hk, Hk'. congruence.
Qed.

(** [_tune] on another instance with the same values at [y]. *)
Lemma tune_transfer y period metric val_size (w1 w2 : world) p i best :
  heap w1 !! y = heap w2 !! y →
  params_permutations !! i = Some best →
  _tune y period metric val_size w1 = (Ok (), tuned_world p best w1) →
  _tune y period metric val_size w2 = (Ok (), tuned_world p best w2).
Proof.
  intros Hy Hbest Hrun.
  apply _tune_Ok_inv in Hrun
    as (p' & metric_fun & i' & best' & Hp & Hm & Hi & Hbest' & Heq).
  destruct (tuned_world_inj _ _ _ _ _ _ _ Hbest Hbest' Heq) as [-> ->].
  rewrite (recorded_scores_ext _ _ _ _ _ _ Hy) in Hi.
  destruct (_tune_Ok y period metric val_size w2 p' metric_fun i' Hp Hm Hi)
    as (best'' & Hbest'' & Hrun).
  congruence.
Qed.

End Again.

(** X5. [_tune] starts from scratch: run on two instances whose series
    object [y] holds the same values, it returns on both or on neither, and
    it selects the same combination and assigns the same period whatever
    the instances held before. *)
Theorem tune_ignores_prior_state `{Externals}
    (y : loc) (period : period_arg) (metric : string) (val_size : option nat)
    (w1 w2 w1' : world) :
  heap w1 !! y = heap w2 !! y →
  _tune y period metric val_size w1 = (Ok (), w1') →
  ∃ p best,
    w1' = tuned_world p best w1
    ∧ _tune y period metric val_size w2 = (Ok (), tuned_world p best w2)
    ∧ self_period (self (tuned_world p best w2)) = self_period (self w1')
    ∧ ∀ k, k ∈ grid_keys ∨ k = "tuned" →
           self_params (self (tuned_world p best w2)) !! k = self_params (self w1') !! k.
Proof.
  intros Hy Hrun. pose proof Hrun as Hinv.
  apply _tune_Ok_inv in Hinv as (p & metric_fun & i & best & _ & _ & _ & Hbest & ->).
  exists p, best. split; [done|].
  split; [by eapply tune_transfer|]. split; [done|].
  intros k Hk. cbn [tuned_world self self_params]. unfold update.
  destruct (decide (k = "tuned")) as [->|Hne]; [by rewrite !lookup_insert_eq|].
  destruct Hk as [Hk|Hk]; [|done].
  rewrite !lookup_insert_ne by done.
  rewrite <- (permutation_dom _ _ Hbest) in Hk. apply elem_of_dom in Hk as [v Hv].
  by rewrite !(lookup_union_Some_l _ _ _ _ Hv).
Qed.

(** X6. [fit] starts from scratch too: when it returns on one instance, it
    returns on every instance whose series object [y] holds the same values,
    with the same fitted model, the same period and the same values under
    the grid's keys and "tuned". *)
Theorem fit_ignores_prior_state `{Externals}
    (y : loc) (period : period_arg) (metric : string) (val_size : option nat)
    (w1 w2 w1' : world) :
  heap w1 !! y = heap w2 !! y →
  fit y period metric val_size w1 = (Ok (), w1') →
  ∃ w2',
    fit y period metric val_size w2 = (Ok (), w2')
    ∧ self_model (self w2') = self_model (self w1')
    ∧ self_period (self w2') = self_period (self w1')
    ∧ self_y (self w2') = Some y
    ∧ ∀ k, k ∈ grid_keys ∨ k = "tuned" →
           self_params (self w2') !! k = self_params (self w1') !! k.
Proof.
  intros Hy Hfit.
  apply fit_Ok_inv in Hfit
    as (p & i & best & trend & seasonal & damped & use_boxcox & remove_bias & model
        & fitted & Htune & Hbest & Ht & Hs & Hd & Hu & Hr & Hmodel & Hfitted & ->).
  assert (heap (entered y w1) !! y = heap (entered y w2) !! y) as Hy' by done.
  pose proof (tune_transfer _ _ _ _ _ _ _ _ _ Hy' Hbest Htune) as Htune2.
  pose proof (fit_run y period metric val_size w2 p i best trend seasonal damped
                use_boxcox remove_bias Htune2 Hbest Ht Hs Hd Hu Hr) as Hfit2.
  rewrite <- Hy, Hmodel, Hfitted in Hfit2.
  eexists. split; [exact Hfit2|]. split_and!; try done.
  intros k Hk. cbn [with_model set_model set_self self self_params snd tuned_world].
  unfold update.
  destruct (decide (k = "tuned")) as [->|Hne]; [by rewrite !lookup_insert_eq|].
  destruct Hk as [Hk|Hk]; [|done].
  rewrite !lookup_insert_ne by done.
  rewrite <- (permutation_dom _ _ Hbest) in Hk. apply elem_of_dom in Hk as [v Hv].
  by rewrite !(lookup_union_Some_l _ _ _ _ Hv).
Qed.

Lemma tune_ignores_prior_state_witness :
  let E : Externals := Double.all_half in
  let w2 : world := Double.used (λ _, Ok (Double.fl 1 (-1))) in
  (heap Double.w0 !! 1%positive = heap w2 !! 1%positive
   ∧ _tune 1%positive (PInt 12) "smape" (Some 3) Double.w0
     = (Ok (), tuned_world 12 (Double.as_dict Double.c0) Double.w0))
  ∧ ∃ p best,
      tuned_world 12 (Double.as_dict Double.c0) Double.w0 = tuned_world p best Double.w0
      ∧ _tune 1%positive (PInt 12) "smape" (Some 3) w2 = (Ok (), tuned_world p best w2)
      ∧ self_period (self (tuned_world p best w2))
        = self_period (self (tuned_world 12 (Double.as_dict Double.c0) Double.w0))
      ∧ ∀ k, k ∈ grid_keys ∨ k = "tuned" →
             self_params (self (tuned_world p best w2)) !! k
             = self_params (self (tuned_world 12 (Double.as_dict Double.c0) Double.w0)) !! k.
Proof.
  intros E w2.
  assert (heap Double.w0 !! 1%positive = heap w2 !! 1%positive) as Hy
    by (vm_compute; reflexivity).
  assert (_tune 1%positive (PInt 12) "smape" (Some 3) Double.w0
          = (Ok (), tuned_world 12 (Double.as_dict Double.c0) Double.w0)) as Hrun
    by (vm_compute; reflexivity).
  split; [by split|].
  exact (tune_ignores_prior_state 1%positive (PInt 12) "smape" (Some 3) _ _ _ Hy Hrun).
Defined.

Lemma fit_ignores_prior_state_witness :
  let E : Externals := Double.all_half in
  let w2 : world := Double.used (λ _, Ok (Double.fl 1 (-1))) in
  let w1' := with_model (Double.fl 1 (-1))
               (tuned_world 12 (Double.as_dict Double.c0) (entered 1%positive Double.w0)) in
  (heap Double.w0 !! 1%positive = heap w2 !! 1%positive
   ∧ fit 1%positive (PInt 12) "smape" (Some 3) Double.w0 = (Ok (), w1'))
  ∧ ∃ w2',
      fit 1%positive (PInt 12) "smape" (Some 3) w2 = (Ok (), w2')
      ∧ self_model (self w2') = self_model (self w1')
      ∧ self_period (self w2') = self_period (self w1')
      ∧ self_y (self w2') = Some 1%positive
      ∧ ∀ k, k ∈ grid_keys ∨ k = "tuned" →
             self_params (self w2') !! k = self_params (self w1') !! k.
Proof.
  intros E w2 w1'.
  assert (heap Double.w0 !! 1%positive = heap w2 !! 1%positive) as Hy
    by (vm_compute; reflexivity).
  assert (fit 1%positive (PInt 12) "smape" (Some 3) Double.w0 = (Ok (), w1')) as Hrun
    by (vm_compute; reflexivity).
  split; [by split|].
  exact (fit_ignores_prior_state 1%positive (PInt 12) "smape" (Some 3) _ _ _ Hy Hrun).
Defined.

(** ** How [fit] fails *)

(** X7. When [fit] raises, the stored model is the one from before the call
    (so [predict] answers as it did before, from the old model or with the
    same error), while [self.y] already refers to the new series.  Either
    [_tune] raised, and [params] is unchanged; or [_tune] returned and
    building or fitting the model on the full series raised, and then
    [params] already holds the selected combination with "tuned" set. *)
Theorem fit_raise_keeps_model `{Externals}
    (y : loc) (period : period_arg) (metric : string) (val_size : option nat)
    (w w' : world) (e : pyexn) :
  fit y period metric val_size w = (Raise e, w') →
  self_model (self w') = self_model (self w)
  ∧ self_y (self w') = Some y
  ∧ heap w' = heap w
  ∧ (∀ horizon, (predict horizon w').1 = (predict horizon w).1)
  ∧ (_tune y period metric val_size (entered y w) = (Raise e, w')
     ∧ self_params (self w') = self_params (self w)
     ∨ ∃ p best,
         _tune y period metric val_size (entered y w)
         = (Ok (), tuned_world p best (entered y w))
         ∧ w' = tuned_world p best (entered y w)
         ∧ self_params (self w') !! "tuned" = Some (VBool true)).
Proof.
  intros Hfit.
  assert (self_model (self w') = self_model (self w)
          ∧ self_y (self w') = Some y
          ∧ heap w' = heap w
          ∧ (_tune y period metric val_size (entered y w) = (Raise e, w')
             ∧ self_params (self w') = self_params (self w)
             ∨ ∃ p best,
                 _tune y period metric val_size (entered y w)
                 = (Ok (), tuned_world p best (entered y w))
                 ∧ w' = tuned_world p best (entered y w)
                 ∧ self_params (self w') !! "tuned" = Some (VBool true)))
    as (Hmodel & Hy & Hheap & Hcases).
  { destruct (_tune y period metric val_size (entered y w)) as [[[]|e'] wt] eqn:Htune.
    - pose proof Htune as Hinv.
      apply _tune_Ok_inv in Hinv as (p & mf & i & best & _ & _ & _ & Hbest & ->).
      assert (∀ k, k ∈ grid_keys → is_Some (best !! k)) as Hkey.
      { intros k Hk. apply elem_of_dom. by rewrite (permutation_dom _ _ Hbest). }
      destruct (Hkey "trend") as [trend Ht];
        [apply (bool_decide_unpack _); vm_compute; exact I|].
      destruct (Hkey "seasonal") as [seasonal Hs];
        [apply (bool_decide_unpack _); vm_compute; exact I|].
      destruct (Hkey "damped") as [damped Hd];
        [apply (bool_decide_unpack _); vm_compute; exact I|].
      destruct (Hkey "use_boxcox") as [use_boxcox Hu];
        [apply (bool_decide_unpack _); vm_compute; exact I|].
      destruct (Hkey "remove_bias") as [remove_bias Hr];
        [apply (bool_decide_unpack _); vm_compute; exact I|].
      rewrite (fit_run y period metric val_size w p i best trend seasonal damped
                 use_boxcox remove_bias Htune Hbest Ht Hs Hd Hu Hr) in Hfit.
      assert (w' = tuned_world p best (entered y w)) as ->.
      { destruct (ExponentialSmoothing _ _ _ _ _) as [model|]; [|congruence].
        destruct (model_fit _ _ _); [done | congruence]. }
      split_and!; [done..|]. right. exists p, best. split_and!; [done..|].
      apply lookup_insert_eq.
    - rewrite (fit_raise_tune _ _ _ _ _ _ _ Htune) in Hfit. injection Hfit as -> ->.
      apply tune_raise_world in Htune as Hw.
      destruct Hw as [->|[p ->]]; (split_and!; [done..|]); by left. }
  split_and!; try done.
  intros horizon. by rewrite !predict_value, Hmodel.
Qed.

Lemma fit_raise_keeps_model_witness :
  let E : Externals := Double.short_only in
  let w' := tuned_world 12 (Double.as_dict Double.c0) (entered 1%positive Double.w0) in
  fit 1%positive (PInt 12) "smape" (Some 3) Double.w0 = (Raise (ValueError "endog"), w')
  ∧ self_model (self w') = self_model (self Double.w0)
  ∧ self_y (self w') = Some 1%positive
  ∧ heap w' = heap Double.w0
  ∧ (∀ horizon, (predict horizon w').1 = (predict horizon Double.w0).1)
  ∧ (_tune 1%positive (PInt 12) "smape" (Some 3) (entered 1%positive Double.w0)
     = (Raise (ValueError "endog"), w')
     ∧ self_params (self w') = self_params (self Double.w0)
     ∨ ∃ p best,
         _tune 1%positive (PInt 12) "smape" (Some 3) (entered 1%positive Double.w0)
         = (Ok (), tuned_world p best (entered 1%positive Double.w0))
         ∧ w' = tuned_world p best (entered 1%positive Double.w0)
         ∧ self_params (self w') !! "tuned" = Some (VBool true)).
Proof.
  intros E w'.
  assert (fit 1%positive (PInt 12) "smape" (Some 3) Double.w0
          = (Raise (ValueError "endog"), w')) as Hrun
    by (vm_compute; reflexivity).
  split; [exact Hrun|].
  exact (fit_raise_keeps_model 1%positive (PInt 12) "smape" (Some 3) _ _ _ Hrun).
Defined.

(** ** The registry *)

(** X8. [create_model] returns the HoltWinters object exactly for the key
    "holt_winters", the Sarima object exactly for "sarima" and the
    FourierSarima object exactly for "fourier_sarima"; for every other key
    it raises the KeyError of that key, and it raises for no other reason. *)
Theorem create_model_keys (model_key : string) :
  (create_model model_key = Ok SarimaInstance ↔ model_key = "sarima")
  ∧ (create_model model_key = Ok FourierSarimaInstance ↔ model_key = "fourier_sarima")
  ∧ (create_model model_key = Ok HoltWintersInstance ↔ model_key = "holt_winters")
  ∧ (∀ e, create_model model_key = Raise e ↔
          e = KeyError model_key
          ∧ model_key ∉ ["sarima"; "fourier_sarima"; "holt_winters"]).
Proof.
  unfold create_model, MODELS, MODEL_KEY_SARIMA, MODEL_KEY_FOURIER_SARIMA,
    MODEL_KEY_HOLT_WINTERS.
  rewrite !lookup_insert, lookup_empty.
  assert (model_key ∉ ["sarima"; "fourier_sarima"; "holt_winters"]
          ↔ "sarima" ≠ model_key ∧ "fourier_sarima" ≠ model_key
            ∧ "holt_winters" ≠ model_key) as Hnotin.
  { rewrite !not_elem_of_cons.
    split; [intros (? & ? & ? & _) | intros (? & ? & ?)]; split_and!;
      try done; try congruence. apply not_elem_of_nil. }
  repeat case_decide; subst; split_and!; try intros e; rewrite ?Hnotin;
    split; intros Hx; simplify_eq; try done;
    try (destruct Hx as (? & ? & ? & ?); done);
    try (by split_and!).
  by destruct Hx as [-> _].
Qed.

(** X9. [_tune] merges into [params]: whatever [params] held under a key
    that is neither a key of the grid nor "tuned" is still there, with the
    same value, when [_tune] returns. *)
Theorem tune_keeps_other_params `{Externals}
    (y : loc) (period : period_arg) (metric : string) (val_size : option nat)
    (w w' : world) (k : string) :
  _tune y period metric val_size w = (Ok (), w') →
  k ∉ grid_keys →
  k ≠ "tuned" →
  self_params (self w') !! k = self_params (self w) !! k.
Proof.
  intros Hrun Hk Hne.
  apply _tune_Ok_inv in Hrun as (p & metric_fun & i & best & _ & _ & _ & Hbest & ->).
  cbn [tuned_world self self_params]. unfold update.
  rewrite lookup_insert_ne by done.
  apply lookup_union_r. apply not_elem_of_dom.
  by rewrite (permutation_dom _ _ Hbest).
Qed.

Lemma tune_keeps_other_params_witness :
  let E : Externals := Double.all_half in
  let w : world := Double.used (λ _, Ok (Double.fl 1 (-1))) in
  (_tune 1%positive (PInt 12) "smape" (Some 3) w
   = (Ok (), tuned_world 12 (Double.as_dict Double.c0) w)
   ∧ ("note" ∉ grid_keys)
   ∧ ("note" ≠ "tuned"))
  ∧ self_params (self (tuned_world 12 (Double.as_dict Double.c0) w)) !! "note"
    = self_params (self w) !! "note".
Proof.
  intros E w.
  assert (_tune 1%positive (PInt 12) "smape" (Some 3) w
          = (Ok (), tuned_world 12 (Double.as_dict Double.c0) w)) as Hrun
    by (vm_compute; reflexivity).
  assert ("note" ∉ grid_keys) as Hk
    by (apply (bool_decide_unpack _); vm_compute; exact I).
  assert ("note" ≠ "tuned") as Hne by discriminate.
  split; [by split_and!|].
  exact (tune_keeps_other_params 1%positive (PInt 12) "smape" (Some 3) _ _ "note"
           Hrun Hk Hne).
Defined.

(** X10. Whatever its outcome, [_tune] assigns on the instance only
    [self.period] and [self.params]: the stored model, [self.y], the name
    and the key are what they were.  If the period alias is unknown, the
    instance is untouched; otherwise [self.period] holds the resolved
    period, also when [_tune] raises later. *)
Theorem tune_assigns_only_period_and_params `{Externals}
    (y : loc) (period : period_arg) (metric : string) (val_size : option nat)
    (w : world) :
  let w' := (_tune y period metric val_size w).2 in
  self_model (self w') = self_model (self w)
  ∧ self_y (self w') = self_y (self w)
  ∧ self_name (self w') = self_name (self w)
  ∧ self_key (self w') = self_key (self w)
  ∧ (∀ p, resolve_period period = Ok p → self_period (self w') = Some p)
  ∧ (∀ e, resolve_period period = Raise e → w' = w).
Proof.
  intros w'. unfold w'.
  destruct (resolve_period period) as [p|e] eqn:Hp.
  2: { rewrite (_tune_raise_period _ _ _ _ _ _ Hp). cbn [snd].
       split_and!; [done..| |done]. intros p Hp'. discriminate Hp'. }
  assert ((_tune y period metric val_size w).2 = with_period p w
          ∨ ∃ best, (_tune y period metric val_size w).2 = tuned_world p best w)
    as Hcases.
  { destruct (get_metric metric) as [metric_fun|e] eqn:Hm.
    2: { left. by rewrite (_tune_raise_metric _ _ _ _ _ _ _ Hp Hm). }
    rewrite (_tune_run _ _ _ _ _ _ _ Hp Hm).
    destruct (nanargmin _) as [i|e]; [|by left].
    destruct (params_permutations !! i) as [best|]; [|by left].
    right. by exists best. }
  destruct Hcases as [->|[best ->]];
    (split_and!; [done..| |]);
    [intros p' Hp'; by injection Hp' as <- | intros e He; discriminate He
    |intros p' Hp'; by injection Hp' as <- | intros e He; discriminate He].
Qed.
